(** * websauna: transaction retry point and nested mutable JSON tracking

  Shallow embedding of
    - [websauna/system/model/retry.py]  (module [Retry] below)
    - [websauna/system/model/json.py]   (module [Json] below)
    - [websauna/system/form/sqlalchemy.py]  (module [Form] below)

  Python objects that are mutated in place (the transaction manager, raw
  [dict]/[list] containers) are modelled by explicit state passing; calls
  into collaborators (the [transaction] package, the decorated function,
  SQLAlchemy's [Mutable] base class) are recorded in an event trace. *)

From Stdlib Require Import ZArith Lia.
From stdpp Require Import base option list strings.

Local Open Scope string_scope.
Local Open Scope Z_scope.
Local Open Scope list_scope.

(* ===================================================================== *)
(** * retry.py                                                            *)
(* ===================================================================== *)

Module Retry.

Section RetryPoint.

(** Exceptions raised by the decorated function or by [txn.commit()] that
    [except Exception] catches, and the values the decorated function
    returns. *)
Variable E : Type.
Variable V : Type.

(** Arguments the decorated function is called with (its positional and keyword arguments). *)
Variable Args : Type.

(** Exceptions leaving [decorated_func].  [Foreign e] is an exception of
    the unit of work re-raised by [raise e]; [CannotRetryAnymore] carries
    the number formatted into its message and its [__cause__]. *)
Inductive exc : Type :=
| AssertionError (msg : string)
| TransactionAlreadyInProcess (msg : string)
| NotRetryable (msg : string)
| CannotRetryAnymore (tried : Z) (cause : option E)
| UnboundLocalError (name : string)
| Foreign (e : E).

(** A resource manager joined to a transaction; [should_retry] is looked up
    with [getattr(dm, 'should_retry', None)]. *)
Record DataManager : Type := { should_retry : option (E -> bool) }.

Record Transaction : Type := { txn_num : nat; _resources : list DataManager }.

(** The attributes of the transaction manager that retry.py reads or
    writes.  [retry_attempt_count = None] stands for a missing attribute
    or one that is [None] (both give [None] through [getattr]). *)
Record Manager : Type := {
  _txn : option Transaction;
  retry_attempt_count : option Z;
  latest_retry_count : option Z;
}.

Inductive event : Type :=
| EvLogFatal
| EvLogInfo (attempt_no : Z)
| EvBegin
| EvCall (num : nat)
| EvCommit (num : nat).

Inductive outcome : Type :=
| Return (v : V)
| Raise (e : exc).

(** What one invocation of the wrapper leaves behind. *)
Record run : Type := {
  out : outcome;
  final : option Manager;
  events : list event;
}.

(** One begin/call/commit cycle as seen from the wrapper: the resource
    managers that joined the transaction, what the call of [func]
    did, and what [txn.commit()] did ([None]: it returned). *)
Record Attempt : Type := {
  joined : list DataManager;
  func_result : E + V;
  commit_result : option E;
}.

(** Behaviour of the collaborators on the zero-based cycle [num]. *)
Variable attempt : Args -> nat -> Attempt.

Definition default_msg : string :=
  "Dangling transction open in transaction.manager. You should not start new one.".

(** [ensure_transactionless]: [Some e] when it raises. *)
Definition ensure_transactionless (msg : option string) (transaction_manager : Manager)
    (tr : list event) : option exc * list event :=
  match _txn transaction_manager with
  | Some _ =>
      let msg := match msg with
                 | Some m => if String.eqb m "" then default_msg else m
                 | None => default_msg
                 end in
      (Some (TransactionAlreadyInProcess msg), tr ++ [EvLogFatal])
  | None => (None, tr)
  end.

(** [is_retryable]: [True] as soon as one resource manager votes for a
    retry; falling off the loop returns [None], which is falsy. *)
Fixpoint is_retryable_resources (rs : list DataManager) (error : E) : bool :=
  match rs with
  | [] => false
  | dm :: rs' =>
      match should_retry dm with
      | Some vote => if vote error then true else is_retryable_resources rs' error
      | None => is_retryable_resources rs' error
      end
  end.

Definition is_retryable (txn : Transaction) (error : E) : bool :=
  is_retryable_resources (_resources txn) error.

(** [manager.begin()] of the [transaction] package: the new transaction
    becomes the current one.  Its [_resources] are the resource managers
    that join it during the cycle, which is what [is_retryable] finds there
    when the cycle fails. *)
Definition begin (args : Args) (num : nat) (m : Manager) : Transaction * Manager :=
  let txn := {| txn_num := num; _resources := joined (attempt args num) |} in
  (txn, {| _txn := Some txn;
           retry_attempt_count := retry_attempt_count m;
           latest_retry_count := latest_retry_count m |}).

Definition set_latest_retry_count (num : nat) (m : Manager) : Manager :=
  {| _txn := _txn m;
     retry_attempt_count := retry_attempt_count m;
     latest_retry_count := Some (Z.of_nat num) |}.

(** A transaction that committed is no longer the current one. *)
Definition committed (m : Manager) : Manager :=
  {| _txn := None;
     retry_attempt_count := retry_attempt_count m;
     latest_retry_count := latest_retry_count m |}.

(** The body of the [try]: [val = func(..); txn.commit(); return val]. *)
Definition try_body (args : Args) (num : nat) (m : Manager) (tr : list event)
    : (E + V) * Manager * list event :=
  match func_result (attempt args num) with
  | inl e => (inl e, m, tr ++ [EvCall num])
  | inr val =>
      match commit_result (attempt args num) with
      | Some e => (inl e, m, tr ++ [EvCall num; EvCommit num])
      | None => (inr val, committed m, tr ++ [EvCall num; EvCommit num])
      end
  end.

(** [if num >= 1: logger.info("Transaction attempt #%d ...", num + 1, func)]. *)
Definition log_attempt (num : nat) (tr : list event) : list event :=
  if (1 <=? num)%nat then tr ++ [EvLogInfo (Z.of_nat num + 1)] else tr.

(** The attempt loop, [for num in range(retry_attempt_count)], over the
    values of [num] still to come.  [last] is the value [num] is bound to
    when the loop is left ([None]: the loop body never ran). *)
Fixpoint attempt_loop (args : Args) (nums : list nat) (last : option nat)
    (latest_exc : option E) (m : Manager) (tr : list event) : run :=
  match nums with
  | [] =>
      match last with
      | Some num =>
          {| out := Raise (CannotRetryAnymore (Z.of_nat num + 1) latest_exc);
             final := Some m; events := tr |}
      | None =>
          {| out := Raise (UnboundLocalError "num"); final := Some m; events := tr |}
      end
  | num :: rest =>
      let tr := log_attempt num tr in
      let '(txn, m) := begin args num m in
      let tr := tr ++ [EvBegin] in
      let m := set_latest_retry_count num m in
      match try_body args num m tr with
      | (inr val, m, tr) => {| out := Return val; final := Some m; events := tr |}
      | (inl e, m, tr) =>
          if is_retryable txn e
          then attempt_loop args rest (Some num) (Some e) m tr
          else {| out := Raise (Foreign e); final := Some m; events := tr |}
      end
  end.

(** [range(n)] for a Python integer [n]. *)
Definition range (n : Z) : list nat := seq 0 (Z.to_nat n).

(** The manager the wrapper works on: [get_tm] applied to the call's
    arguments when a factory was given, [tm] otherwise. *)
Definition resolve_manager (tm : option Manager) (get_tm : option (Args -> option Manager))
    (args : Args) : option Manager :=
  match get_tm with
  | Some factory => factory args
  | None => tm
  end.

(** [decorated_func] of [retryable(tm, get_tm)]. *)
Definition decorated_func (tm : option Manager) (get_tm : option (Args -> option Manager))
    (args : Args) : run :=
  match resolve_manager tm get_tm args with
  | None =>
      {| out := Raise (AssertionError "No transaction manager available for retry");
         final := None; events := [] |}
  | Some manager =>
      match ensure_transactionless None manager [] with
      | (Some e, tr) => {| out := Raise e; final := Some manager; events := tr |}
      | (None, tr) =>
          match retry_attempt_count manager with
          | None | Some 0 =>
              {| out := Raise (NotRetryable
                   "TransactionManager is not configured with default retry attempt count");
                 final := Some manager; events := tr |}
          | Some retry_attempt_count =>
              attempt_loop args (range retry_attempt_count) None None manager tr
          end
      end
  end.

(** Observations on a trace. *)
Definition is_begin (e : event) : bool :=
  match e with EvBegin => true | _ => false end.

Definition is_call (e : event) : bool :=
  match e with EvCall _ => true | _ => false end.

Definition is_commit (e : event) : bool :=
  match e with EvCommit _ => true | _ => false end.

Definition begin_calls (tr : list event) : nat := length (List.filter is_begin tr).
Definition func_calls (tr : list event) : nat := length (List.filter is_call tr).
Definition commit_calls (tr : list event) : nat := length (List.filter is_commit tr).

(** The exception, if any, that ends the [try] body of cycle [num]. *)
Definition attempt_error (args : Args) (num : nat) : option E :=
  match func_result (attempt args num) with
  | inl e => Some e
  | inr _ => commit_result (attempt args num)
  end.

(** Cycle [num] ends in an exception that some resource manager of its
    transaction classifies as retryable. *)
Definition retryable_failure (args : Args) (num : nat) (e : E) : Prop :=
  attempt_error args num = Some e /\
  is_retryable_resources (joined (attempt args num)) e = true.

(** What the wrapper is given when it stops before the attempt loop: no
    manager at all, or a manager without a transaction in progress whose
    [retry_attempt_count] is missing, [None] or [0]. *)
Definition unconfigured (resolved : option Manager) : Prop :=
  match resolved with
  | None => True
  | Some m =>
      _txn m = None /\ (retry_attempt_count m = None \/ retry_attempt_count m = Some 0)
  end.

End RetryPoint.

Arguments AssertionError {E} msg.
Arguments TransactionAlreadyInProcess {E} msg.
Arguments NotRetryable {E} msg.
Arguments CannotRetryAnymore {E} tried cause.
Arguments UnboundLocalError {E} name.
Arguments Foreign {E} e.
Arguments should_retry {E} d.
Arguments Build_DataManager {E} should_retry.
Arguments txn_num {E} t.
Arguments _resources {E} t.
Arguments Build_Transaction {E} txn_num _resources.
Arguments _txn {E} m.
Arguments retry_attempt_count {E} m.
Arguments latest_retry_count {E} m.
Arguments Build_Manager {E} _txn retry_attempt_count latest_retry_count.
Arguments Return {E V} v.
Arguments Raise {E V} e.
Arguments out {E V} r.
Arguments final {E V} r.
Arguments events {E V} r.
Arguments joined {E V} a.
Arguments func_result {E V} a.
Arguments commit_result {E V} a.
Arguments Build_Attempt {E V} joined func_result commit_result.
Arguments is_retryable_resources {E} rs error.
Arguments is_retryable {E} txn error.
Arguments ensure_transactionless {E} msg transaction_manager tr.
Arguments resolve_manager {E Args} tm get_tm args.
Arguments decorated_func {E V Args} attempt tm get_tm args.
Arguments attempt_loop {E V Args} attempt args nums last latest_exc m tr.
Arguments try_body {E V Args} attempt args num m tr.
Arguments begin {E V Args} attempt args num m.
Arguments set_latest_retry_count {E} num m.
Arguments committed {E} m.
Arguments attempt_error {E V Args} attempt args num.
Arguments retryable_failure {E V Args} attempt args num e.
Arguments unconfigured {E} resolved.

(** ** Scenarios

    Exceptions and return values are numbers; the decorated function takes
    no arguments. *)

(** A resource manager that votes for a retry on every error, as a
    database session does on a serialisation conflict. *)
Definition conflict_dm : DataManager nat := {| should_retry := Some (fun _ => true) |}.

(** A resource manager without a [should_retry] method. *)
Definition plain_dm : DataManager nat := {| should_retry := None |}.

Definition fresh_manager (count : option Z) : Manager nat :=
  {| _txn := None; retry_attempt_count := count; latest_retry_count := None |}.

Definition busy_manager (count : option Z) : Manager nat :=
  {| _txn := Some {| txn_num := 0; _resources := [] |};
     retry_attempt_count := count; latest_retry_count := None |}.

(** Every cycle conflicts: the function raises the cycle's number. *)
Definition always_conflict (_ : unit) (num : nat) : Attempt nat nat :=
  {| joined := [plain_dm; conflict_dm]; func_result := inl num; commit_result := None |}.

(** The first two commits conflict, the third cycle goes through with 42. *)
Definition third_time_lucky (_ : unit) (num : nat) : Attempt nat nat :=
  {| joined := [conflict_dm];
     func_result := inr (if (num <? 2)%nat then 0%nat else 42%nat);
     commit_result := if (num <? 2)%nat then Some num else None |}.

(** One conflict, then an error of the function that nobody retries. *)
Definition conflict_then_crash (_ : unit) (num : nat) : Attempt nat nat :=
  {| joined := if (num <? 1)%nat then [conflict_dm] else [plain_dm];
     func_result := inl (100 + num)%nat; commit_result := None |}.

End Retry.

(* ===================================================================== *)
(** * json.py                                                             *)
(* ===================================================================== *)

Module Json.

(** ** Python values

    Raw [dict] and [list] objects live in a store and are referred to by
    address, so that two references to one container see each other's
    changes.  The wrappers [NestedMutationDict] and [NestedMutationList] are
    values: [__parent__] is fixed by [__init__], and [_parents] is filled in
    right after construction. *)

Definition addr : Type := nat.

(** A SQLAlchemy model instance. *)
Definition Rec : Type := nat.

Inductive Class : Type := NestedMutationDict | NestedMutationList.

#[warnings="-register-all"]
Inductive Wrapper : Type := Nested {
  cls : Class;
  _d : addr;
  __parent__ : option Wrapper;
  _parents : list (Rec * string);
}.

(** Keys of a raw [dict] and indices of a raw [list]. *)
Inductive Key : Type :=
| KStr (s : string)
| KInt (i : Z)
| KNone.

Inductive PyVal : Type :=
| VNone
| VBool (b : bool)
| VInt (z : Z)
| VStr (s : string)
| VRaw (a : addr)
| VNested (w : Wrapper).

(** A [dict] keeps its items in insertion order, with distinct keys. *)
Inductive RawObj : Type :=
| RDict (items : list (Key * PyVal))
| RList (items : list PyVal).

Inductive PyExc : Type :=
| KeyError (k : Key)
| IndexError
| ValueError
| TypeError
| AttributeError (name : string)
| RecursionError.

(** What a call gives back: a value, an iterator or view (by the items it
    yields), the text of [__repr__] (by what is formatted into it), the
    [NotImplemented] singleton, or an exception. *)
Inductive Result : Type :=
| Value (v : PyVal)
| Items (vs : list PyVal)
| Text (by_class : option Class) (raw : RawObj)
| NotImplemented
| Raises (e : PyExc).

(** [flag_modified(parent, key)] and [setattr(target, name, value)]. *)
Inductive Event : Type :=
| FlagModified (parent : Rec) (key : string)
| SetAttr (target : Rec) (name : string) (value : PyVal).

Record State : Type := {
  heap : list RawObj;
  events : list Event;
}.

#[global] Instance Key_eq_dec : EqDecision Key.
Proof. solve_decision. Defined.

#[global] Instance Class_eq_dec : EqDecision Class.
Proof. solve_decision. Defined.

Definition key_val (k : Key) : PyVal :=
  match k with
  | KStr s => VStr s
  | KInt i => VInt i
  | KNone => VNone
  end.

(** ** Builtin container behaviour *)

Fixpoint dict_lookup (k : Key) (items : list (Key * PyVal)) : option PyVal :=
  match items with
  | [] => None
  | (k', v) :: rest => if decide (k = k') then Some v else dict_lookup k rest
  end.

(** [d[k] = v]: an existing key keeps its place. *)
Fixpoint dict_store (k : Key) (v : PyVal) (items : list (Key * PyVal))
    : list (Key * PyVal) :=
  match items with
  | [] => [(k, v)]
  | (k', v') :: rest =>
      if decide (k = k') then (k', v) :: rest else (k', v') :: dict_store k v rest
  end.

(** [del d[k]]. *)
Fixpoint dict_discard (k : Key) (items : list (Key * PyVal)) : list (Key * PyVal) :=
  match items with
  | [] => []
  | (k', v') :: rest =>
      if decide (k = k') then rest else (k', v') :: dict_discard k rest
  end.

(** An index into a sequence of length [len], counted from the end when
    negative; [None] when out of range. *)
Definition norm_index (len : nat) (i : Z) : option nat :=
  let j := if i <? 0 then i + Z.of_nat len else i in
  if (0 <=? j) && (j <? Z.of_nat len) then Some (Z.to_nat j) else None.

(** The position [list.insert] uses: clipped to the ends. *)
Definition insert_index (len : nat) (i : Z) : nat :=
  let j := if i <? 0 then i + Z.of_nat len else i in
  if j <? 0 then 0%nat else if Z.of_nat len <? j then len else Z.to_nat j.

(** ** Equality

    [==] between two values, with the recursion limit as fuel: [None] is a
    [RecursionError]. *)

(** [x is y], where the model can tell. *)
Definition identical (x y : PyVal) : bool :=
  match x, y with
  | VNone, VNone => true
  | VBool a, VBool b => Bool.eqb a b
  | VRaw a, VRaw b => (a =? b)%nat
  | _, _ => false
  end.

Definition bool_int (b : bool) : Z := if b then 1 else 0.

(** [==] on values that are not containers. *)
Definition atom_eq (x y : PyVal) : bool :=
  match x, y with
  | VNone, VNone => true
  | VBool a, VBool b => Bool.eqb a b
  | VBool a, VInt z | VInt z, VBool a => bool_int a =? z
  | VInt a, VInt b => a =? b
  | VStr a, VStr b => String.eqb a b
  | _, _ => false
  end.

(** [dict_equal] of CPython, after the length test: every item of the left
    operand is looked up in the right one and compared. *)
Fixpoint dict_items_equal (cmp : PyVal -> PyVal -> option bool)
    (xs ys : list (Key * PyVal)) : option bool :=
  match xs with
  | [] => Some true
  | (k, av) :: xs' =>
      match dict_lookup k ys with
      | None => Some false
      | Some bv =>
          match cmp av bv with
          | Some true => dict_items_equal cmp xs' ys
          | other => other
          end
      end
  end.

Definition dict_equal (cmp : PyVal -> PyVal -> option bool)
    (xs ys : list (Key * PyVal)) : option bool :=
  if (length xs =? length ys)%nat then dict_items_equal cmp xs ys else Some false.

(** [list_richcompare] for [==], after the length test. *)
Fixpoint list_items_equal (cmp : PyVal -> PyVal -> option bool)
    (xs ys : list PyVal) : option bool :=
  match xs, ys with
  | x :: xs', y :: ys' =>
      match cmp x y with
      | Some true => list_items_equal cmp xs' ys'
      | other => other
      end
  | _, _ => Some true
  end.

Definition list_equal (cmp : PyVal -> PyVal -> option bool)
    (xs ys : list PyVal) : option bool :=
  if (length xs =? length ys)%nat then list_items_equal cmp xs ys else Some false.

(** [x == y].  A wrapper answers through [NestedMixin.__eq__], which is
    [self._d == other]; a raw container or an atom on the left returns
    [NotImplemented] for a wrapper on the right, whose reflected [__eq__]
    is then asked.  Items of containers are compared with
    [PyObject_RichCompareBool]: identical objects are equal. *)
Fixpoint py_eq (fuel : nat) (h : list RawObj) (x y : PyVal) : option bool :=
  match fuel with
  | O => None
  | S fuel' =>
      let item_eq := fun a b => if identical a b then Some true else py_eq fuel' h a b in
      match x, y with
      | VNested w, _ => py_eq fuel' h (VRaw (_d w)) y
      | _, VNested w => py_eq fuel' h (VRaw (_d w)) x
      | VRaw a, VRaw b =>
          match h !! a, h !! b with
          | Some (RDict xs), Some (RDict ys) => dict_equal item_eq xs ys
          | Some (RList xs), Some (RList ys) => list_equal item_eq xs ys
          | _, _ => Some (a =? b)%nat
          end
      | _, _ => Some (atom_eq x y)
      end
  end.

(** [PyObject_RichCompareBool(x, y, Py_EQ)]. *)
Definition rich_compare_bool (fuel : nat) (h : list RawObj) (x y : PyVal) : option bool :=
  if identical x y then Some true else py_eq fuel h x y.

(** ** The wrapped method names *)

Inductive Method : Type :=
| m_iter | m_len | m_eq | m_add | m_getitem | m_getslice | m_repr | m_get | m_keys
| m_setitem | m_delitem | m_setslice | m_delslice | m_append | m_clear | m_extend
| m_insert | m_pop | m_setdefault | m_update | m_remove.

#[global] Instance Method_eq_dec : EqDecision Method.
Proof. solve_decision. Defined.

Definition method_name (m : Method) : string :=
  match m with
  | m_iter => "__iter__" | m_len => "__len__" | m_eq => "__eq__" | m_add => "__add__"
  | m_getitem => "__getitem__" | m_getslice => "__getslice__" | m_repr => "__repr__"
  | m_get => "get" | m_keys => "keys"
  | m_setitem => "__setitem__" | m_delitem => "__delitem__"
  | m_setslice => "__setslice__" | m_delslice => "__delslice__"
  | m_append => "append" | m_clear => "clear" | m_extend => "extend"
  | m_insert => "insert" | m_pop => "pop" | m_setdefault => "setdefault"
  | m_update => "update" | m_remove => "remove"
  end.

(** The [(methodname, mutates)] pairs of the installation loop. *)
Definition method_table : list (Method * bool) :=
  [ (m_iter, false); (m_len, false); (m_eq, false); (m_add, false);
    (m_getitem, false); (m_getslice, false); (m_repr, false); (m_get, false);
    (m_keys, false);
    (m_setitem, true); (m_delitem, true); (m_setslice, true); (m_delslice, true);
    (m_append, true); (m_clear, true); (m_extend, true); (m_insert, true);
    (m_pop, true); (m_setdefault, true); (m_update, true); (m_remove, true) ].

(** [getattr(wrapper_class._wraps, methodname, False)]: the names Python 3's
    [dict] and [list] have. *)
Definition wraps_has (c : Class) (m : Method) : bool :=
  match c, m with
  | _, (m_getslice | m_setslice | m_delslice) => false
  | NestedMutationDict, (m_add | m_append | m_extend | m_insert | m_remove) => false
  | NestedMutationList, (m_get | m_keys | m_setdefault | m_update) => false
  | _, _ => true
  end.

Fixpoint table_lookup (m : Method) (table : list (Method * bool)) : option bool :=
  match table with
  | [] => None
  | (m', mutates) :: rest => if decide (m = m') then Some mutates else table_lookup m rest
  end.

(** The replacer the loop sets on a class for a name, by its [mutates]
    flag; [None] when the loop sets nothing. *)
Definition installed (c : Class) (m : Method) : option bool :=
  if wraps_has c m then table_lookup m method_table else None.

(** A method call with its arguments.  [call_get] and [call_pop] carry the
    optional arguments of [get] and [pop]. *)
Inductive Call : Type :=
| call_iter
| call_len
| call_eq (other : PyVal)
| call_add (other : PyVal)
| call_getitem (key : Key)
| call_repr
| call_get (key : Key) (default : PyVal)
| call_keys
| call_setitem (key : Key) (value : PyVal)
| call_delitem (key : Key)
| call_append (x : PyVal)
| call_clear
| call_extend (iterable : PyVal)
| call_insert (index : Z) (x : PyVal)
| call_pop (key : option Key) (default : option PyVal)
| call_setdefault (key : Key) (default : PyVal)
| call_update (other : PyVal)
| call_remove (x : PyVal).

Definition method_of (c : Call) : Method :=
  match c with
  | call_iter => m_iter | call_len => m_len | call_eq _ => m_eq | call_add _ => m_add
  | call_getitem _ => m_getitem | call_repr => m_repr | call_get _ _ => m_get
  | call_keys => m_keys | call_setitem _ _ => m_setitem | call_delitem _ => m_delitem
  | call_append _ => m_append | call_clear => m_clear | call_extend _ => m_extend
  | call_insert _ _ => m_insert | call_pop _ _ => m_pop
  | call_setdefault _ _ => m_setdefault | call_update _ => m_update
  | call_remove _ => m_remove
  end.

(** ** Wrapping *)

Inductive RawType : Type := ty_dict | ty_list.

#[global] Instance RawType_eq_dec : EqDecision RawType.
Proof. solve_decision. Defined.

Definition raw_type (o : RawObj) : RawType :=
  match o with
  | RDict _ => ty_dict
  | RList _ => ty_list
  end.

Definition MUTATION_WRAPPERS : list (RawType * Class) :=
  [ (ty_dict, NestedMutationDict); (ty_list, NestedMutationList) ].

(** [isinstance(value, typ)] for [typ] one of [dict] and [list]; the
    wrappers are instances of neither. *)
Definition isinstance (h : list RawObj) (value : PyVal) (typ : RawType) : bool :=
  match value with
  | VRaw a =>
      match h !! a with
      | Some o => bool_decide (raw_type o = typ)
      | None => false
      end
  | _ => false
  end.

(** [wrapper(value, __parent__=parent)]: the new wrapper holds [value]
    itself, and its [_parents] starts empty. *)
Definition construct (wrapper : Class) (value : PyVal) (parent : option Wrapper) : PyVal :=
  match value with
  | VRaw a => VNested {| cls := wrapper; _d := a; __parent__ := parent; _parents := [] |}
  | _ => value
  end.

Fixpoint try_wrap_in (wrappers : list (RawType * Class)) (h : list RawObj)
    (self : Wrapper) (value : PyVal) : PyVal :=
  match wrappers with
  | [] => value
  | (typ, wrapper) :: rest =>
      if isinstance h value typ then construct wrapper value (Some self)
      else try_wrap_in rest h self value
  end.

(** [NestedMixin.try_wrap]. *)
Definition try_wrap (h : list RawObj) (self : Wrapper) (value : PyVal) : PyVal :=
  try_wrap_in MUTATION_WRAPPERS h self value.

(** ** Methods of the raw containers *)

(** What iterating over a value yields; [None] when it is not iterable.  A
    wrapper is iterated through its [__iter__], which iterates [_d]. *)
Definition iterate (h : list RawObj) (v : PyVal) : option (list PyVal) :=
  let over := fun a =>
    match h !! a with
    | Some (RDict items) => Some (map (fun kv => key_val (fst kv)) items)
    | Some (RList items) => Some items
    | None => None
    end in
  match v with
  | VRaw a => over a
  | VNested w => over (_d w)
  | VStr s => Some (map (fun c => VStr (String c EmptyString)) (String.list_ascii_of_string s))
  | _ => None
  end.

Definition as_key (v : PyVal) : option Key :=
  match v with
  | VStr s => Some (KStr s)
  | VInt i => Some (KInt i)
  | VBool b => Some (KInt (bool_int b))
  | VNone => Some KNone
  | _ => None
  end.

(** One element of the iterable given to [dict.update]: it must be iterable
    ([TypeError] otherwise) and have exactly two items ([ValueError]
    otherwise), the first of them hashable ([TypeError] otherwise). *)
Definition as_pair (h : list RawObj) (v : PyVal) : PyExc + (Key * PyVal) :=
  match iterate h v with
  | Some [k; x] =>
      match as_key k with
      | Some k' => inr (k', x)
      | None => inl TypeError
      end
  | Some _ => inl ValueError
  | None => inl TypeError
  end.

(** What [dict.update(other)] goes through, element by element.  A mapping
    (anything with [keys]) is read through [keys()] and [other[key]]: for a
    [NestedMutationDict] that is [NestedMixin.__getitem__], which wraps.
    Any other argument is iterated as a sequence of pairs, each of which is
    looked at only when its turn comes.  [inl]: the argument is rejected
    before anything is stored. *)
Definition update_pairs (h : list RawObj) (other : PyVal)
    : PyExc + list (PyExc + (Key * PyVal)) :=
  match other with
  | VRaw a =>
      match h !! a with
      | Some (RDict items) => inr (map inr items)
      | Some (RList items) => inr (map (as_pair h) items)
      | None => inl TypeError
      end
  | VNested w =>
      match cls w with
      | NestedMutationDict =>
          match h !! _d w with
          | Some (RDict items) =>
              inr (map (fun kv => inr (fst kv, try_wrap h w (snd kv))) items)
          | _ => inl (AttributeError "keys")
          end
      | NestedMutationList =>
          match iterate h other with
          | Some vs => inr (map (as_pair h) vs)
          | None => inl TypeError
          end
      end
  | VStr _ =>
      match iterate h other with
      | Some vs => inr (map (as_pair h) vs)
      | None => inl TypeError
      end
  | _ => inl TypeError
  end.

(** The loop of [dict.update]: every pair is stored as it is met, and the
    first malformed element ends the loop with its exception, after the
    pairs before it have been stored. *)
Fixpoint store_pairs (pairs : list (PyExc + (Key * PyVal))) (items : list (Key * PyVal))
    : list (Key * PyVal) * option PyExc :=
  match pairs with
  | [] => (items, None)
  | inl e :: _ => (items, Some e)
  | inr (k, v) :: rest => store_pairs rest (dict_store k v items)
  end.

(** Index of the first item that is the value or equals it, as
    [list.remove] looks for it.  Outer [None]: [RecursionError]. *)
Fixpoint find_equal (cmp : PyVal -> PyVal -> option bool) (x : PyVal)
    (items : list PyVal) (i : nat) : option (option nat) :=
  match items with
  | [] => Some None
  | item :: rest =>
      match cmp item x with
      | None => None
      | Some true => Some (Some i)
      | Some false => find_equal cmp x rest (S i)
      end
  end.

Definition compared (r : option bool) : Result :=
  match r with
  | Some b => Value (VBool b)
  | None => Raises RecursionError
  end.

Section Methods.

(** The interpreter's recursion limit. *)
Variable limit : nat.

(** A method of a [dict] called with the arguments of [c]: the result and
    the items afterwards. *)
Definition dict_method (c : Call) (h : list RawObj) (items : list (Key * PyVal))
    : Result * list (Key * PyVal) :=
  match c with
  | call_iter => (Items (map (fun kv => key_val (fst kv)) items), items)
  | call_len => (Value (VInt (Z.of_nat (length items))), items)
  | call_eq other =>
      match other with
      | VRaw b =>
          match h !! b with
          | Some (RDict ys) =>
              (compared (dict_equal (rich_compare_bool limit h) items ys), items)
          | _ => (NotImplemented, items)
          end
      | _ => (NotImplemented, items)
      end
  | call_getitem key =>
      match dict_lookup key items with
      | Some v => (Value v, items)
      | None => (Raises (KeyError key), items)
      end
  | call_repr => (Text None (RDict items), items)
  | call_get key default =>
      match dict_lookup key items with
      | Some v => (Value v, items)
      | None => (Value default, items)
      end
  | call_keys => (Items (map (fun kv => key_val (fst kv)) items), items)
  | call_setitem key value => (Value VNone, dict_store key value items)
  | call_delitem key =>
      match dict_lookup key items with
      | Some _ => (Value VNone, dict_discard key items)
      | None => (Raises (KeyError key), items)
      end
  | call_clear => (Value VNone, [])
  | call_pop (Some key) default =>
      match dict_lookup key items, default with
      | Some v, _ => (Value v, dict_discard key items)
      | None, Some d => (Value d, items)
      | None, None => (Raises (KeyError key), items)
      end
  | call_pop None _ => (Raises TypeError, items)
  | call_setdefault key default =>
      match dict_lookup key items with
      | Some v => (Value v, items)
      | None => (Value default, dict_store key default items)
      end
  | call_update other =>
      match update_pairs h other with
      | inl e => (Raises e, items)
      | inr pairs =>
          match store_pairs pairs items with
          | (items', None) => (Value VNone, items')
          | (items', Some e) => (Raises e, items')
          end
      end
  | call_add _ | call_append _ | call_extend _ | call_insert _ _ | call_remove _ =>
      (Raises (AttributeError (method_name (method_of c))), items)
  end.

(** A method of a [list]: the result, the items afterwards, and the
    objects it allocates ([list.__add__] builds a new list, which gets the
    next free address [length h]). *)
Definition list_method (c : Call) (h : list RawObj) (items : list PyVal)
    : Result * list PyVal * list RawObj :=
  match c with
  | call_iter => (Items items, items, [])
  | call_len => (Value (VInt (Z.of_nat (length items))), items, [])
  | call_eq other =>
      match other with
      | VRaw b =>
          match h !! b with
          | Some (RList ys) =>
              (compared (list_equal (rich_compare_bool limit h) items ys), items, [])
          | _ => (NotImplemented, items, [])
          end
      | _ => (NotImplemented, items, [])
      end
  | call_add other =>
      match other with
      | VRaw b =>
          match h !! b with
          | Some (RList ys) => (Value (VRaw (length h)), items, [RList (items ++ ys)])
          | _ => (Raises TypeError, items, [])
          end
      | _ => (Raises TypeError, items, [])
      end
  | call_getitem (KInt i) =>
      match norm_index (length items) i with
      | Some j =>
          match items !! j with
          | Some v => (Value v, items, [])
          | None => (Raises IndexError, items, [])
          end
      | None => (Raises IndexError, items, [])
      end
  | call_getitem _ => (Raises TypeError, items, [])
  | call_repr => (Text None (RList items), items, [])
  | call_setitem (KInt i) value =>
      match norm_index (length items) i with
      | Some j => (Value VNone, <[j := value]> items, [])
      | None => (Raises IndexError, items, [])
      end
  | call_setitem _ _ => (Raises TypeError, items, [])
  | call_delitem (KInt i) =>
      match norm_index (length items) i with
      | Some j => (Value VNone, delete j items, [])
      | None => (Raises IndexError, items, [])
      end
  | call_delitem _ => (Raises TypeError, items, [])
  | call_append x => (Value VNone, items ++ [x], [])
  | call_clear => (Value VNone, [], [])
  | call_extend iterable =>
      match iterate h iterable with
      | Some vs => (Value VNone, items ++ vs, [])
      | None => (Raises TypeError, items, [])
      end
  | call_insert index x =>
      let j := insert_index (length items) index in
      (Value VNone, take j items ++ x :: drop j items, [])
  | call_pop key None =>
      match key with
      | Some (KStr _ | KNone) => (Raises TypeError, items, [])
      | _ =>
          let i := match key with Some (KInt i) => i | _ => -1 end in
          match norm_index (length items) i with
          | Some j =>
              match items !! j with
              | Some v => (Value v, delete j items, [])
              | None => (Raises IndexError, items, [])
              end
          | None => (Raises IndexError, items, [])
          end
      end
  | call_pop _ (Some _) => (Raises TypeError, items, [])
  | call_remove x =>
      match find_equal (rich_compare_bool limit h) x items 0 with
      | None => (Raises RecursionError, items, [])
      | Some None => (Raises ValueError, items, [])
      | Some (Some j) => (Value VNone, delete j items, [])
      end
  | call_get _ _ | call_keys | call_setdefault _ _ | call_update _ =>
      (Raises (AttributeError (method_name (method_of c))), items, [])
  end.

(** [getattr(self._d, methodname)] called with the arguments of [c], for the
    raw container at address [a]. *)
Definition raw_call (c : Call) (h : list RawObj) (a : addr) : Result * list RawObj :=
  match h !! a with
  | Some (RDict items) =>
      let '(value, items') := dict_method c h items in
      (value, <[a := RDict items']> h)
  | Some (RList items) =>
      let '(value, items', fresh) := list_method c h items in
      (value, <[a := RList items']> h ++ fresh)
  | None => (Raises (AttributeError (method_name (method_of c))), h)
  end.

(** ** Methods of the wrappers *)

(** [Mutable.changed] of SQLAlchemy: every owner in [_parents] has the
    attribute flagged as modified. *)
Definition mutable_changed (parents : list (Rec * string)) (st : State) : State :=
  {| heap := heap st;
     events := events st ++ map (fun pk => FlagModified (fst pk) (snd pk)) parents |}.

(** [NestedMixin.changed].  The first [if] of the source is guarded by
    [False] and never runs. *)
Fixpoint changed (self : Wrapper) (st : State) : State :=
  match __parent__ self with
  | Some parent => changed parent st
  | None => mutable_changed (_parents self) st
  end.

(** The function [_make_mutable_method_wrapper] returns: an exception of the
    raw method leaves before [changed] is reached. *)
Definition replacer (mutates : bool) (self : Wrapper) (c : Call) (st : State)
    : Result * State :=
  let '(value, h) := raw_call c (heap st) (_d self) in
  let st' := {| heap := h; events := events st |} in
  match value with
  | Raises _ => (value, st')
  | _ => (value, if mutates then changed self st' else st')
  end.

(** [NestedMixin.__getitem__]. *)
Definition __getitem__ (self : Wrapper) (key : Key) (st : State) : Result * State :=
  let '(value, h) := raw_call (call_getitem key) (heap st) (_d self) in
  let st' := {| heap := h; events := events st |} in
  match value with
  | Value v => (Value (try_wrap h self v), st')
  | _ => (value, st')
  end.

(** [NestedMixin.__eq__]: [self._d == other]. *)
Definition __eq__ (self : Wrapper) (other : PyVal) (st : State) : Result * State :=
  (compared (py_eq limit (heap st) (VRaw (_d self)) other), st).

(** [NestedMixin.__repr__], which is [__str__]: the class and [_d] are
    formatted (and [id(self)], which the model has no counterpart of). *)
Definition __repr__ (self : Wrapper) (st : State) : Result * State :=
  match heap st !! _d self with
  | Some o => (Text (Some (cls self)) o, st)
  | None => (Raises (AttributeError "_d"), st)
  end.

(** [NestedMutationDict.setdefault]. *)
Definition setdefault (self : Wrapper) (key : Key) (default : PyVal) (st : State)
    : Result * State :=
  let default :=
    if isinstance (heap st) default ty_list
    then construct NestedMutationList default (Some self)
    else if isinstance (heap st) default ty_dict
    then construct NestedMutationDict default (Some self)
    else default in
  replacer true self (call_setdefault key default) st.

(** Attribute lookup along the method resolution order: the class itself,
    [NestedMixin], then the replacers set on [MutationDict] or
    [MutationList]. *)
Definition call_method (self : Wrapper) (c : Call) (st : State) : Result * State :=
  match cls self, c with
  | NestedMutationDict, call_setdefault key default => setdefault self key default st
  | _, call_getitem key => __getitem__ self key st
  | _, call_eq other => __eq__ self other st
  | _, call_repr => __repr__ self st
  | k, _ =>
      match installed k (method_of c) with
      | Some mutates => replacer mutates self c st
      | None => (Raises (AttributeError (method_name (method_of c))), st)
      end
  end.

(** [x in self]: neither class defines [__contains__], so the items of
    [__iter__] are searched. *)
Definition contains (self : Wrapper) (x : PyVal) (st : State) : Result * State :=
  match call_method self call_iter st with
  | (Items vs, st') =>
      match find_equal (rich_compare_bool limit (heap st')) x vs 0 with
      | None => (Raises RecursionError, st')
      | Some None => (Value (VBool false), st')
      | Some (Some _) => (Value (VBool true), st')
      end
  | other => other
  end.

(** A method call on any value: on a raw container it is the builtin's own
    method, which knows nothing of wrappers. *)
Definition py_call (receiver : PyVal) (c : Call) (st : State) : Result * State :=
  match receiver with
  | VNested w => call_method w c st
  | VRaw a =>
      let '(value, h) := raw_call c (heap st) a in
      (value, {| heap := h; events := events st |})
  | _ => (Raises (AttributeError (method_name (method_of c))), st)
  end.

(** [MutationList.__radd__]: [other + self._d], with a raw container on
    the right.  A left operand that cannot be added to it (no [__add__], or
    one that does not take a [list]) makes it a [TypeError]. *)
Definition __radd__ (self : Wrapper) (other : PyVal) (st : State) : Result * State :=
  match py_call other (call_add (VRaw (_d self))) st with
  | (Raises (AttributeError _), st') => (Raises TypeError, st')
  | result => result
  end.

End Methods.

(** ** Projection to plain data *)

(** The comprehension of [__json__]: an item with a [__json__] method (a
    wrapper) is replaced by its projection, any other item is kept. *)
Fixpoint project_values
    (project : list RawObj -> Wrapper -> PyExc + (addr * list RawObj))
    (h : list RawObj) (vs : list PyVal) : PyExc + (list PyVal * list RawObj) :=
  match vs with
  | [] => inr ([], h)
  | v :: rest =>
      match v with
      | VNested w =>
          match project h w with
          | inl e => inl e
          | inr (a, h1) =>
              match project_values project h1 rest with
              | inl e => inl e
              | inr (vs', h2) => inr (VRaw a :: vs', h2)
              end
          end
      | _ =>
          match project_values project h rest with
          | inl e => inl e
          | inr (vs', h2) => inr (v :: vs', h2)
          end
      end
  end.

(** [MutationDict.__json__] and [MutationList.__json__], with the recursion
    limit as fuel.  The result is a new container at the returned address.
    A list wrapper around a [dict] iterates over its keys. *)
Fixpoint __json__ (fuel : nat) (h : list RawObj) (self : Wrapper)
    : PyExc + (addr * list RawObj) :=
  match fuel with
  | O => inl RecursionError
  | S fuel' =>
      match cls self, h !! _d self with
      | NestedMutationDict, Some (RDict items) =>
          match project_values (__json__ fuel') h (map snd items) with
          | inl e => inl e
          | inr (vs, h') => inr (length h', h' ++ [RDict (zip (map fst items) vs)])
          end
      | NestedMutationList, Some (RList items) =>
          match project_values (__json__ fuel') h items with
          | inl e => inl e
          | inr (vs, h') => inr (length h', h' ++ [RList vs])
          end
      | NestedMutationList, Some (RDict items) =>
          inr (length h, h ++ [RList (map (fun kv => key_val (fst kv)) items)])
      | NestedMutationDict, Some (RList _) => inl (AttributeError "items")
      | _, None => inl (AttributeError "_d")
      end
  end.

(** [_default], the hook [json_serializer] gives to [json.dumps]. *)
Definition _default (obj : PyVal) : PyVal :=
  match obj with
  | VNested w => VRaw (_d w)
  | _ => VNone
  end.

(** ** Coercion and wrapping of column values *)

Definition wrapped_type (c : Class) : RawType :=
  match c with
  | NestedMutationDict => ty_dict
  | NestedMutationList => ty_list
  end.

(** [MutationDict.coerce] and [MutationList.coerce] called on the nested
    class [c]; [Mutable.coerce] lets [None] through and raises [ValueError]
    otherwise. *)
Definition coerce (c : Class) (key : string) (value : PyVal) (h : list RawObj) : Result :=
  match value with
  | VNested w => if decide (cls w = c) then Value value else Raises ValueError
  | _ =>
      if isinstance h value (wrapped_type c) then Value (construct c value None)
      else match value with
           | VNone => Value VNone
           | _ => Raises ValueError
           end
  end.

Fixpoint wrap_as_nested_in (wrappers : list (RawType * Class)) (key : string)
    (data : PyVal) (parent : Rec) (h : list RawObj) : PyVal * list RawObj :=
  match wrappers with
  | [] => (data, h)
  | (typ, wrapper) :: rest =>
      if isinstance h data typ then
        match data with
        | VRaw a =>
            match h !! a with
            | Some o =>
                (VNested {| cls := wrapper; _d := length h; __parent__ := None;
                            _parents := [(parent, key)] |},
                 h ++ [o])
            | None => (data, h)
            end
        | _ => (data, h)
        end
      else wrap_as_nested_in rest key data parent h
  end.

(** [wrap_as_nested]: [data.copy()] is a new container with the same items,
    and the wrapper around it is bound to the record's attribute. *)
Definition wrap_as_nested (key : string) (data : PyVal) (parent : Rec) (h : list RawObj)
    : PyVal * list RawObj :=
  wrap_as_nested_in MUTATION_WRAPPERS key data parent h.

(** What [with_json_columns] reads of a column.  A callable default may
    build a new container. *)
Inductive ColumnDefault : Type :=
| Literal (arg : PyVal)
| Callable (arg : Rec -> list RawObj -> PyVal * list RawObj).

Record Column : Type := {
  name : string;
  json_like : bool;
  default : option ColumnDefault;
}.

Definition is_json_like_column (c : Column) : bool := json_like c.

Definition _get_column_default (target : Rec) (column : Column) (h : list RawObj)
    : PyVal * list RawObj :=
  match default column with
  | Some (Callable arg) => arg target h
  | Some (Literal arg) => (arg, h)
  | None => (VNone, h)
  end.

(** The [init] listener of [with_json_columns]. *)
Fixpoint init (target : Rec) (columns : list Column) (st : State) : State :=
  match columns with
  | [] => st
  | c :: rest =>
      if is_json_like_column c then
        let '(default, h1) := _get_column_default target c (heap st) in
        let '(default, h2) := wrap_as_nested (name c) default target h1 in
        init target rest
          {| heap := h2; events := events st ++ [SetAttr target (name c) default] |}
      else init target rest st
  end.

(** ** Vocabulary of the properties *)

(** The wrapper at the top of the [__parent__] chain. *)
Fixpoint root_of (w : Wrapper) : Wrapper :=
  match __parent__ w with
  | Some parent => root_of parent
  | None => w
  end.

(** A wrapper bound to the attribute [key] of one record, as
    [wrap_as_nested] makes it. *)
Definition tracked_root (root : Wrapper) (parent : Rec) (key : string) : Prop :=
  __parent__ root = None /\ _parents root = [(parent, key)].

Definition values_of (o : RawObj) : list PyVal :=
  match o with
  | RDict items => map snd items
  | RList items => items
  end.

(** Every wrapper kept inside a raw container (as [setdefault] puts it
    there) hangs below [root]. *)
Definition wrappers_rooted (root : Wrapper) (h : list RawObj) : Prop :=
  forall a o w, h !! a = Some o -> VNested w ∈ values_of o -> root_of w = root.

(** The nested container found from [w] by the indexed reads
    [w[k1][k2]...]; [None] when a read raises or gives something that is
    not a container. *)
Fixpoint follow (limit : nat) (st : State) (w : Wrapper) (path : list Key)
    : option Wrapper :=
  match path with
  | [] => Some w
  | key :: rest =>
      match __getitem__ limit w key st with
      | (Value (VNested child), _) => follow limit st child rest
      | _ => None
      end
  end.

(** A sequence of method calls on one wrapper. *)
Fixpoint run_calls (limit : nat) (w : Wrapper) (calls : list Call) (st : State) : State :=
  match calls with
  | [] => st
  | c :: rest => run_calls limit w rest (snd (call_method limit w c st))
  end.

(** The operations that only read: a call of a method the table marks as
    not mutating, or a membership test. *)
Inductive Read : Type :=
| read_call (c : Call)
| read_in (x : PyVal).

Definition read_only (r : Read) : bool :=
  match r with
  | read_call c => bool_decide (table_lookup (method_of c) method_table = Some false)
  | read_in _ => true
  end.

Definition read (limit : nat) (w : Wrapper) (r : Read) (st : State) : Result * State :=
  match r with
  | read_call c => call_method limit w c st
  | read_in x => contains limit w x st
  end.

(** What iterating over a raw container yields: the keys of a [dict], the
    items of a [list]. *)
Definition iterated (o : RawObj) : list PyVal :=
  match o with
  | RDict items => map (fun kv => key_val (fst kv)) items
  | RList items => items
  end.

(** What a raw container holds under a key or at an index. *)
Definition stored_at (o : RawObj) (key : Key) : PyExc + PyVal :=
  match o, key with
  | RDict items, _ =>
      match dict_lookup key items with
      | Some v => inr v
      | None => inl (KeyError key)
      end
  | RList items, KInt i =>
      match norm_index (length items) i with
      | Some j =>
          match items !! j with
          | Some v => inr v
          | None => inl IndexError
          end
      | None => inl IndexError
      end
  | RList _, _ => inl TypeError
  end.

(** What a read-only operation on a wrapper is to give, told from the
    wrapped raw container [o] alone: membership, length, iteration and the
    key view from its items, equality as [o == other], [get] and the
    indexed read from what it holds under the key (the indexed read wrapped
    again when that is a container), concatenation from the items of both
    lists, and the text from the class and [o].  A method the raw type does
    not have is an [AttributeError]; so is, here, every call of a mutating
    method, which is no read. *)
Definition raw_view (limit : nat) (h : list RawObj) (self : Wrapper) (o : RawObj)
    (r : Read) : Result :=
  match r with
  | read_in x =>
      match find_equal (rich_compare_bool limit h) x (iterated o) 0 with
      | None => Raises RecursionError
      | Some None => Value (VBool false)
      | Some (Some _) => Value (VBool true)
      end
  | read_call call_len => Value (VInt (Z.of_nat (length (values_of o))))
  | read_call call_iter => Items (iterated o)
  | read_call call_keys =>
      match o with
      | RDict _ => Items (iterated o)
      | RList _ => Raises (AttributeError "keys")
      end
  | read_call (call_get key default) =>
      match o with
      | RDict _ =>
          match stored_at o key with
          | inr v => Value v
          | inl _ => Value default
          end
      | RList _ => Raises (AttributeError "get")
      end
  | read_call (call_getitem key) =>
      match stored_at o key with
      | inr v => Value (try_wrap h self v)
      | inl e => Raises e
      end
  | read_call (call_eq other) => compared (py_eq limit h (VRaw (_d self)) other)
  | read_call call_repr => Text (Some (cls self)) o
  | read_call (call_add other) =>
      match o, other with
      | RDict _, _ => Raises (AttributeError "__add__")
      | RList _, VRaw b =>
          match h !! b with
          | Some (RList _) => Value (VRaw (length h))
          | _ => Raises TypeError
          end
      | RList _, _ => Raises TypeError
      end
  | read_call c => Raises (AttributeError (method_name (method_of c)))
  end.

(** What a read-only operation adds to the store: concatenation builds a
    new list of the items of both operands, nothing else allocates. *)
Definition raw_fresh (h : list RawObj) (o : RawObj) (r : Read) : list RawObj :=
  match r, o with
  | read_call (call_add (VRaw b)), RList items =>
      match h !! b with
      | Some (RList ys) => [RList (items ++ ys)]
      | _ => []
      end
  | _, _ => []
  end.

(** The indexed reads [w[k1][k2]...] meet only plain containers. *)
Fixpoint plain_path (limit : nat) (st : State) (w : Wrapper) (path : list Key) : bool :=
  match path with
  | [] => true
  | key :: rest =>
      match raw_call limit (call_getitem key) (heap st) (_d w) with
      | (Value (VRaw _), _) =>
          match __getitem__ limit w key st with
          | (Value (VNested child), _) => plain_path limit st child rest
          | _ => false
          end
      | _ => false
      end
  end.

Definition raised (r : Result) : bool :=
  match r with
  | Raises _ => true
  | _ => false
  end.

Definition is_wrapper (v : PyVal) : option Wrapper :=
  match v with
  | VNested w => Some w
  | _ => None
  end.

(** A wrapper whose class matches the container it holds, with distinct
    keys in a [dict], and whose items that are wrappers are again such, to
    a depth of at most [n] wrappers. *)
Fixpoint well_nested (n : nat) (h : list RawObj) (w : Wrapper) : bool :=
  match n with
  | O => false
  | S n' =>
      let item_ok := fun v =>
        match is_wrapper v with
        | Some x => well_nested n' h x
        | None => true
        end in
      match cls w, h !! _d w with
      | NestedMutationDict, Some (RDict items) =>
          bool_decide (NoDup (map fst items)) && forallb item_ok (map snd items)
      | NestedMutationList, Some (RList items) => forallb item_ok items
      | _, _ => false
      end
  end.

(** The items of a container that are wrappers are well nested to depth [n]. *)
Definition nested_items (n : nat) (h : list RawObj) (vs : list PyVal) : Prop :=
  Forall (fun v => forall x, v = VNested x -> well_nested n h x = true) vs.

(** ** Scenarios *)

(** The store after [wrap_as_nested("data", {"a": [1, 2]}, record 7)]: the
    list, the [dict] that was passed in, and its copy. *)
Definition demo_heap : list RawObj :=
  [ RList [VInt 1; VInt 2];
    RDict [(KStr "a", VRaw 0%nat)];
    RDict [(KStr "a", VRaw 0%nat)] ].

Definition demo_state : State := {| heap := demo_heap; events := [] |}.

Definition demo_root : Wrapper :=
  {| cls := NestedMutationDict; _d := 2%nat; __parent__ := None;
     _parents := [(7%nat, "data")] |}.

(** [root["a"]]. *)
Definition demo_child : Wrapper :=
  {| cls := NestedMutationList; _d := 0%nat; __parent__ := Some demo_root;
     _parents := [] |}.

(** A root whose [dict] holds a wrapper, as after
    [root.setdefault("tags", ["x"])]. *)
Definition kept_root : Wrapper :=
  {| cls := NestedMutationDict; _d := 1%nat; __parent__ := None;
     _parents := [(7%nat, "data")] |}.

Definition kept_heap : list RawObj :=
  [ RList [VStr "x"];
    RDict [ (KStr "n", VInt 3);
            (KStr "tags",
             VNested {| cls := NestedMutationList; _d := 0%nat;
                        __parent__ := Some kept_root; _parents := [] |}) ] ].

(** An empty list below a root. *)
Definition empty_heap : list RawObj := [ RList []; RDict [(KStr "a", VRaw 0%nat)] ].

Definition empty_child : Wrapper :=
  {| cls := NestedMutationList; _d := 0%nat; __parent__ := Some kept_root;
     _parents := [] |}.

(** Two records: the column of record 7 holds an empty [dict], the column
    of record 8 holds [{"a": [1, 2]}]. *)
Definition two_heap : list RawObj :=
  [ RList [VInt 1; VInt 2]; RDict []; RDict [(KStr "a", VRaw 0%nat)] ].

Definition record7_root : Wrapper :=
  {| cls := NestedMutationDict; _d := 1%nat; __parent__ := None;
     _parents := [(7%nat, "data")] |}.

Definition record8_root : Wrapper :=
  {| cls := NestedMutationDict; _d := 2%nat; __parent__ := None;
     _parents := [(8%nat, "data")] |}.

(** After [record7.data.update(record8.data)]. *)
Definition merged_state : State :=
  snd (call_method 10 record7_root (call_update (VNested record8_root))
         {| heap := two_heap; events := [] |}).

(** What [record7.data["a"]] then returns: the wrapper [update] read out
    of the column of record 8. *)
Definition foreign_child : Wrapper :=
  {| cls := NestedMutationList; _d := 0%nat; __parent__ := Some record8_root;
     _parents := [] |}.


(** A list wrapper that belongs to no record. *)
Definition loose_list : Wrapper :=
  {| cls := NestedMutationList; _d := 0%nat; __parent__ := None; _parents := [] |}.

(** The columns of a record type: an integer key and two JSON columns
    without default. *)
Definition plain_columns : list Column :=
  [ {| name := "id"; json_like := false; default := None |};
    {| name := "data"; json_like := true; default := None |};
    {| name := "tags"; json_like := true; default := None |} ].

(** A column whose default is the literal [{"a": []}], and two records
    constructed with it. *)
Definition shared_heap : list RawObj :=
  [ RList []; RDict [(KStr "a", VRaw 0%nat)] ].

Definition shared_column : Column :=
  {| name := "data"; json_like := true; default := Some (Literal (VRaw 1%nat)) |}.

Definition shared_state : State :=
  init 8%nat [shared_column]
    (init 7%nat [shared_column] {| heap := shared_heap; events := [] |}).

Definition shared_root7 : Wrapper :=
  {| cls := NestedMutationDict; _d := 2%nat; __parent__ := None;
     _parents := [(7%nat, "data")] |}.

Definition shared_root8 : Wrapper :=
  {| cls := NestedMutationDict; _d := 3%nat; __parent__ := None;
     _parents := [(8%nat, "data")] |}.

End Json.

(* ===================================================================== *)
(** * form/sqlalchemy.py                                                  *)
(* ===================================================================== *)

Module Form.

Section ModelSets.

(** Values of columns and of form fields. *)
Variable Val : Type.

(** A database session, as the request carries it. *)
Variable Session : Type.

Inductive FormExc : Type :=
| AttributeError (name : string)
| AssertionError (msg : string)
| KeyError (name : string)
| TypeError
| NameError (name : string)
| Failure (what : string).

(** A model instance (a row), by its attributes. *)
Definition Item : Type := string -> option Val.

(** A model class: the name of its table and its column attributes. *)
Record ModelClass : Type := { tablename : string; column_names : list string }.

(** [getattr(item, name)]. *)
Definition getattr (item : Item) (name : string) : FormExc + Val :=
  match item name with
  | Some v => inr v
  | None => inl (AttributeError name)
  end.

(** A column given by name or by a function of the row. *)
Inductive ColumnSpec : Type :=
| ByName (name : string)
| ByFunction (f : Item -> FormExc + Val).

Definition column_getter (column : ColumnSpec) : Item -> FormExc + Val :=
  match column with
  | ByName name => fun item => getattr item name
  | ByFunction f => f
  end.

(** The comprehension [[(first(item), second(item)) for item in query]]. *)
Fixpoint tuples_of (first second : Item -> FormExc + Val) (query : list Item)
    : FormExc + list (Val * Val) :=
  match query with
  | [] => inr []
  | item :: rest =>
      match first item with
      | inl e => inl e
      | inr a =>
          match second item with
          | inl e => inl e
          | inr b =>
              match tuples_of first second rest with
              | inl e => inl e
              | inr ts => inr ((a, b) :: ts)
              end
          end
      end
  end.

Definition convert_query_to_tuples (query : list Item) (first_column second_column : ColumnSpec)
    : FormExc + list (Val * Val) :=
  tuples_of (column_getter first_column) (column_getter second_column) query.

(** [[f(x) for x in xs]] for an [f] that may raise. *)
Fixpoint comprehension {A B : Type} (f : A -> FormExc + B) (xs : list A)
    : FormExc + list B :=
  match xs with
  | [] => inr []
  | x :: rest =>
      match f x with
      | inl e => inl e
      | inr y =>
          match comprehension f rest with
          | inl e => inl e
          | inr ys => inr (y :: ys)
          end
      end
  end.

(** [ModelSet] and its subclass [UUIDModelSet]. *)
Inductive SetClass : Type := ModelSet | UUIDModelSet.

(** The class attributes of a set type; [None] is the default of [ModelSet]. *)
Record SetType : Type := {
  class : SetClass;
  model : option ModelClass;
  match_column : option string;
  label_column : option string;
}.

(** Truth value of an attribute that holds [None] or a string. *)
Definition configured (attribute : option string) : bool :=
  match attribute with
  | Some name => negb (String.eqb name "")
  | None => false
  end.

(** [websauna.utils.slug], which is not part of these sources. *)
Variable slug_to_uuid : Val -> FormExc + Val.
Variable uuid_to_slug : Val -> FormExc + Val.

(** [dbsession.query(model).filter(match_column.in_(values)).all()]. *)
Variable query_all : Session -> ModelClass -> string -> list Val -> list Item.

(** A schema node, by the session of the request bound to it. *)
Record Node : Type := { request_dbsession : option Session }.

(** What reaches [serialize]: [colander.null] or the model instances. *)
Inductive Appstruct : Type :=
| ANull
| AItems (items : list Item).

Inductive Serialized : Type :=
| SNull
| SValues (values : list Val).

(** What reaches [deserialize]: [colander.null], a string, something that
    cannot be iterated, or a sequence of values. *)
Inductive Cstruct : Type :=
| CNull
| CString (s : string)
| CScalar (v : Val)
| CSequence (values : list Val).

(** What [deserialize] returns: [colander.null], the plain empty list, or
    the [ModelSetResultList] of a query. *)
Inductive Deserialized : Type :=
| DNull
| DEmpty
| DResult (rows : list Item).

Inductive QueryEvent : Type :=
| Queried (session : Session) (table : string) (column : string) (values : list Val).

Definition attribute_of (item : Item) (attribute : option string) : FormExc + Val :=
  match attribute with
  | Some name => getattr item name
  | None => inl TypeError
  end.

Definition preprocess_appstruct_values (self : SetType) (appstruct : list Item)
    : FormExc + list Val :=
  match class self with
  | ModelSet => comprehension (fun i => attribute_of i (label_column self)) appstruct
  | UUIDModelSet =>
      comprehension (fun i => match attribute_of i (match_column self) with
                              | inl e => inl e
                              | inr uuid => uuid_to_slug uuid
                              end) appstruct
  end.

Definition preprocess_cstruct_values (self : SetType) (cstruct : list Val)
    : FormExc + list Val :=
  match class self with
  | ModelSet => inr cstruct
  | UUIDModelSet => comprehension slug_to_uuid cstruct
  end.

Definition serialize (self : SetType) (appstruct : Appstruct) : FormExc + Serialized :=
  if negb (configured (match_column self)) then inl (AssertionError "match_column not configured")
  else if negb (configured (label_column self)) then inl (AssertionError "label_column not configured")
  else match appstruct with
       | ANull => inr SNull
       | AItems items =>
           match preprocess_appstruct_values self items with
           | inl e => inl e
           | inr values => inr (SValues values)
           end
       end.

Definition get_dbsession (node : Node) : FormExc + Session :=
  match request_dbsession node with
  | Some session => inr session
  | None => inl (KeyError "request")
  end.

(** [get_match_column]: the column attribute of the model, by its name. *)
Definition get_match_column (self : SetType) (m : option ModelClass) : FormExc + string :=
  match match_column self with
  | Some name =>
      if String.eqb name "" then inl (AssertionError "match_column undefined")
      else match m with
           | Some cl =>
               if bool_decide (name ∈ column_names cl) then inr name
               else inl (AttributeError name)
           | None => inl (AttributeError name)
           end
  | None => inl (AssertionError "match_column undefined")
  end.

(** [query_items]: an empty [IN] is not sent to the database. *)
Definition query_items (session : Session) (m : ModelClass) (column : string)
    (values : list Val) : Deserialized * list QueryEvent :=
  match values with
  | [] => (DEmpty, [])
  | _ =>
      (DResult (query_all session m column values),
       [Queried session (tablename m) column values])
  end.

Definition deserialize_set_to_models (self : SetType) (node : Node) (cstruct : list Val)
    : (FormExc + Deserialized) * list QueryEvent :=
  match get_dbsession node with
  | inl e => (inl e, [])
  | inr dbsession =>
      match get_match_column self (model self) with
      | inl e => (inl e, [])
      | inr column =>
          match preprocess_cstruct_values self cstruct with
          | inl e => (inl e, [])
          | inr values =>
              match model self with
              | Some m =>
                  let '(result, queries) := query_items dbsession m column values in
                  (inr result, queries)
              | None => (inl (AttributeError column), [])
              end
          end
      end
  end.

(** [ModelSet.deserialize].  For a string or a value that is not iterable
    the source builds the message of [colander.Invalid] with [_], a name the
    module neither imports nor defines: evaluating the argument raises
    [NameError] before [colander.Invalid] is constructed. *)
Definition deserialize (self : SetType) (node : Node) (cstruct : Cstruct)
    : (FormExc + Deserialized) * list QueryEvent :=
  match cstruct with
  | CNull => (inr DNull, [])
  | CString _ | CScalar _ => (inl (NameError "_"), [])
  | CSequence values => deserialize_set_to_models self node values
  end.

End ModelSets.

Arguments getattr {Val} item name.
Arguments ByName {Val} name.
Arguments ByFunction {Val} f.
Arguments column_getter {Val} column.
Arguments tuples_of {Val} first second query.
Arguments convert_query_to_tuples {Val} query first_column second_column.
Arguments comprehension {A B} f xs.
Arguments Build_Node {Session} request_dbsession.
Arguments request_dbsession {Session} n.
Arguments ANull {Val}.
Arguments AItems {Val} items.
Arguments SNull {Val}.
Arguments SValues {Val} values.
Arguments CNull {Val}.
Arguments CString {Val} s.
Arguments CScalar {Val} v.
Arguments CSequence {Val} values.
Arguments DNull {Val}.
Arguments DEmpty {Val}.
Arguments DResult {Val} rows.
Arguments Queried {Val Session} session table column values.
Arguments attribute_of {Val} item attribute.
Arguments preprocess_appstruct_values {Val} uuid_to_slug self appstruct.
Arguments preprocess_cstruct_values {Val} slug_to_uuid self cstruct.
Arguments serialize {Val} uuid_to_slug self appstruct.
Arguments get_dbsession {Session} node.
Arguments query_items {Val Session} query_all session m column values.
Arguments deserialize_set_to_models {Val Session} slug_to_uuid query_all self node cstruct.
Arguments deserialize {Val Session} slug_to_uuid query_all self node cstruct.

(** ** Scenarios

    Values are strings, there is one session, and the database answers a
    query with one row per value asked for. *)

Definition user_row (uuid label : string) : Item string :=
  fun attribute =>
    if String.eqb attribute "uuid" then Some uuid
    else if String.eqb attribute "name" then Some label
    else None.

Definition users : ModelClass := {| tablename := "users"; column_names := ["uuid"; "name"] |}.

Definition user_set : SetType :=
  {| class := UUIDModelSet; model := Some users;
     match_column := Some "uuid"; label_column := Some "name" |}.

(** A [ModelSet] subclass that sets no attribute. *)
Definition bare_set : SetType :=
  {| class := ModelSet; model := None; match_column := None; label_column := None |}.

(** A [ModelSet] subclass matching on one column and labelling by another. *)
Definition named_set : SetType :=
  {| class := ModelSet; model := Some users;
     match_column := Some "uuid"; label_column := Some "name" |}.

Definition demo_slug (uuid : string) : FormExc + string := inr ("slug-" ++ uuid)%string.

Definition demo_unslug (slug : string) : FormExc + string :=
  if String.prefix "slug-" slug then inr (String.substring 5 (String.length slug - 5) slug)
  else inl (Failure "bad slug").

Definition demo_query (_ : unit) (_ : ModelClass) (_ : string) (values : list string)
    : list (Item string) :=
  map (fun v => user_row v "someone") values.

Definition demo_node : Node unit := {| request_dbsession := Some tt |}.

End Form.

(* ===================================================================== *)
(** * Properties of the retry point                                       *)
(* ===================================================================== *)

Module RetryFacts.
Import Retry.

Section Facts.

Context {E V Args : Type}.
Variable attempt : Args -> nat -> Attempt E V.

Lemma begin_calls_app (a b : list event) :
  begin_calls (a ++ b) = (begin_calls a + begin_calls b)%nat.
Proof. unfold begin_calls. by rewrite List.filter_app, length_app. Qed.

Lemma func_calls_app (a b : list event) :
  func_calls (a ++ b) = (func_calls a + func_calls b)%nat.
Proof. unfold func_calls. by rewrite List.filter_app, length_app. Qed.

(** The log line written at the top of a cycle is neither a begin nor a call. *)
Lemma log_attempt_neutral (num : nat) (tr : list event) :
  begin_calls (log_attempt num tr) = begin_calls tr /\
  func_calls (log_attempt num tr) = func_calls tr.
Proof.
  unfold log_attempt. destruct (1 <=? num)%nat; [|done].
  rewrite begin_calls_app, func_calls_app. unfold begin_calls, func_calls. simpl. lia.
Qed.

(** One cycle that ends in a retryable failure: the loop goes on with the
    remaining values of [num], one begin and one call later. *)
Lemma attempt_loop_retry (args : Args) (num : nat) (rest : list nat) (e : E)
    (last : option nat) (latest_exc : option E) (m : Manager E) (tr : list event) :
  retryable_failure attempt args num e ->
  exists m' tr',
    attempt_loop attempt args (num :: rest) last latest_exc m tr
      = attempt_loop attempt args rest (Some num) (Some e) m' tr' /\
    begin_calls tr' = S (begin_calls tr) /\
    func_calls tr' = S (func_calls tr) /\
    retry_attempt_count m' = retry_attempt_count m.
Proof.
  intros [Herr Hvote].
  destruct (log_attempt_neutral num tr) as [Hb Hc].
  unfold attempt_error in Herr. cbn [attempt_loop begin].
  unfold try_body, is_retryable. cbn [_resources].
  destruct (func_result (attempt args num)) as [e0|val].
  - injection Herr as ->. rewrite Hvote.
    eexists _, _. split; [reflexivity|].
    rewrite !begin_calls_app, !func_calls_app, Hb, Hc.
    unfold begin_calls, func_calls. simpl. split_and!; lia || done.
  - rewrite Herr, Hvote.
    eexists _, _. split; [reflexivity|].
    rewrite !begin_calls_app, !func_calls_app, Hb, Hc.
    unfold begin_calls, func_calls. simpl. split_and!; lia || done.
Qed.

(** A run of [j] cycles that all end in a retryable failure. *)
Lemma attempt_loop_retries (args : Args) (j : nat) :
  forall (k : nat) (rest : list nat) (last : option nat) (latest_exc : option E)
         (m : Manager E) (tr : list event),
  (forall i, (k <= i < k + j)%nat -> exists e, retryable_failure attempt args i e) ->
  exists last' latest' m' tr',
    attempt_loop attempt args (seq k j ++ rest) last latest_exc m tr
      = attempt_loop attempt args rest last' latest' m' tr' /\
    begin_calls tr' = (begin_calls tr + j)%nat /\
    func_calls tr' = (func_calls tr + j)%nat /\
    retry_attempt_count m' = retry_attempt_count m /\
    (j = 0%nat -> last' = last /\ latest' = latest_exc) /\
    ((0 < j)%nat -> last' = Some (k + j - 1)%nat /\
                    latest' = attempt_error attempt args (k + j - 1)).
Proof.
  induction j as [|j IH]; intros k rest last latest_exc m tr Hall.
  - exists last, latest_exc, m, tr. simpl. split_and!; try done; try lia.
  - destruct (Hall k) as [e He]; [lia|].
    destruct (attempt_loop_retry args k (seq (S k) j ++ rest) e last latest_exc m tr He)
      as (m1 & tr1 & Hstep & Hb1 & Hc1 & Hr1).
    destruct (IH (S k) rest (Some k) (Some e) m1 tr1) as
      (last' & latest' & m' & tr' & Hrun & Hb & Hc & Hr & Hz & Hp).
    { intros i Hi. apply Hall. lia. }
    exists last', latest', m', tr'. simpl seq. simpl app. rewrite Hstep, Hrun.
    split_and!; try done; try lia; try congruence.
    intros _. destruct j as [|j'].
    + destruct Hz as [-> ->]; [done|]. replace (k + 1 - 1)%nat with k by lia.
      split; [done|]. symmetry. apply He.
    + destruct Hp as [-> ->]; [lia|].
      by replace (S k + S j' - 1)%nat with (k + S (S j') - 1)%nat by lia.
Qed.

(** With a manager, no transaction in progress and a positive count the
    wrapper enters the attempt loop with an empty trace. *)
Lemma decorated_func_enters_loop (tm : option (Manager E))
    (get_tm : option (Args -> option (Manager E))) (args : Args) (m : Manager E) (N : Z) :
  resolve_manager tm get_tm args = Some m ->
  _txn m = None ->
  retry_attempt_count m = Some N ->
  1 <= N ->
  decorated_func attempt tm get_tm args
    = attempt_loop attempt args (seq 0 (Z.to_nat N)) None None m [].
Proof.
  intros Hm Htxn Hcount HN. unfold decorated_func, ensure_transactionless.
  rewrite Hm, Htxn, Hcount. destruct N as [|p|p]; try lia. reflexivity.
Qed.

(** The cycle in which the decorated function returns and the commit goes
    through ends the loop. *)
Lemma attempt_loop_success (args : Args) (num : nat) (rest : list nat) (v : V)
    (last : option nat) (latest_exc : option E) (m : Manager E) (tr : list event) :
  func_result (attempt args num) = inr v ->
  commit_result (attempt args num) = None ->
  let r := attempt_loop attempt args (num :: rest) last latest_exc m tr in
  out r = Return v /\
  begin_calls (events r) = S (begin_calls tr) /\
  func_calls (events r) = S (func_calls tr) /\
  List.last (events r) EvLogFatal = EvCommit num /\
  exists m', final r = Some m' /\ latest_retry_count m' = Some (Z.of_nat num) /\ _txn m' = None.
Proof.
  intros Hf Hc. destruct (log_attempt_neutral num tr) as [Hb Hn].
  cbn [attempt_loop begin]. unfold try_body. rewrite Hf, Hc. cbn [out events final].
  rewrite !begin_calls_app, !func_calls_app, Hb, Hn.
  split_and!; [done| unfold begin_calls; simpl; lia | unfold func_calls; simpl; lia | |].
  - change [EvCall num; EvCommit num] with ([EvCall num] ++ [EvCommit num]).
    rewrite app_assoc. apply List.last_last.
  - eexists. split; [reflexivity|]. done.
Qed.

(** The cycle that ends in an exception nobody wants to retry ends the loop
    with that exception. *)
Lemma attempt_loop_fatal (args : Args) (num : nat) (rest : list nat) (e : E)
    (last : option nat) (latest_exc : option E) (m : Manager E) (tr : list event) :
  attempt_error attempt args num = Some e ->
  is_retryable_resources (joined (attempt args num)) e = false ->
  let r := attempt_loop attempt args (num :: rest) last latest_exc m tr in
  out r = Raise (Foreign e) /\
  begin_calls (events r) = S (begin_calls tr) /\
  func_calls (events r) = S (func_calls tr).
Proof.
  intros Herr Hvote. destruct (log_attempt_neutral num tr) as [Hb Hn].
  unfold attempt_error in Herr.
  cbn [attempt_loop begin]. unfold try_body, is_retryable. cbn [_resources].
  destruct (func_result (attempt args num)) as [e0|val].
  - injection Herr as ->. rewrite Hvote. cbn [out events].
    rewrite !begin_calls_app, !func_calls_app, Hb, Hn.
    unfold begin_calls, func_calls. simpl. split_and!; lia || done.
  - rewrite Herr, Hvote. cbn [out events].
    rewrite !begin_calls_app, !func_calls_app, Hb, Hn.
    unfold begin_calls, func_calls. simpl. split_and!; lia || done.
Qed.

(** [range N] split at a cycle [K < N]. *)
Lemma seq_split_at (n K : nat) :
  (K < n)%nat -> seq 0 n = seq 0 K ++ K :: seq (S K) (n - S K).
Proof.
  intros HK. replace n with (K + S (n - S K))%nat at 1 by lia.
  by rewrite seq_app.
Qed.

(** C1. For every retry bound [N >= 1]: when every cycle ends in an exception
    (of the decorated function or of the commit) that some resource manager
    of its transaction classifies as retryable, the wrapper begins exactly
    [N] transactions, calls the function [N] times and raises
    [CannotRetryAnymore] whose cause is the exception of the last cycle. *)
Theorem retries_exhausted (tm : option (Manager E))
    (get_tm : option (Args -> option (Manager E))) (args : Args) (m : Manager E) (N : Z) :
  resolve_manager tm get_tm args = Some m ->
  _txn m = None ->
  retry_attempt_count m = Some N ->
  1 <= N ->
  (forall i, (i < Z.to_nat N)%nat -> exists e, retryable_failure attempt args i e) ->
  let r := decorated_func attempt tm get_tm args in
  exists e_last,
    attempt_error attempt args (Z.to_nat N - 1) = Some e_last /\
    out r = Raise (CannotRetryAnymore N (Some e_last)) /\
    begin_calls (events r) = Z.to_nat N /\
    func_calls (events r) = Z.to_nat N.
Proof.
  intros Hm Htxn Hcount HN Hall r. subst r.
  rewrite (decorated_func_enters_loop tm get_tm args m N) by done.
  destruct (attempt_loop_retries args (Z.to_nat N) 0 [] None None m []) as
    (last' & latest' & m' & tr' & Hrun & Hb & Hc & _ & _ & Hp).
  { intros i Hi. apply Hall. lia. }
  rewrite app_nil_r in Hrun. rewrite Hrun.
  destruct Hp as [-> ->]; [lia|].
  destruct (Hall (Z.to_nat N - 1)%nat) as [e [He _]]; [lia|].
  exists e. simpl. rewrite He. split_and!; try done.
  f_equal. f_equal. lia.
Qed.

(** C2. When the cycles before the [K]-th end in retryable failures and in
    the [K]-th ([K <= N]) the decorated function returns [v] and the commit
    goes through, the wrapper begins exactly [K] transactions, calls the
    function [K] times, ends with the commit of cycle [K], returns [v] and
    leaves [latest_retry_count] at [K - 1]. *)
Theorem succeeds_on_attempt (tm : option (Manager E))
    (get_tm : option (Args -> option (Manager E))) (args : Args) (m : Manager E)
    (N : Z) (K : nat) (v : V) :
  resolve_manager tm get_tm args = Some m ->
  _txn m = None ->
  retry_attempt_count m = Some N ->
  (1 <= K)%nat ->
  Z.of_nat K <= N ->
  (forall i, (i < K - 1)%nat -> exists e, retryable_failure attempt args i e) ->
  func_result (attempt args (K - 1)) = inr v ->
  commit_result (attempt args (K - 1)) = None ->
  let r := decorated_func attempt tm get_tm args in
  out r = Return v /\
  begin_calls (events r) = K /\
  func_calls (events r) = K /\
  List.last (events r) EvLogFatal = EvCommit (K - 1) /\
  exists m', final r = Some m' /\ latest_retry_count m' = Some (Z.of_nat K - 1).
Proof.
  intros Hm Htxn Hcount HK HKN Hfail Hf Hc r. subst r.
  rewrite (decorated_func_enters_loop tm get_tm args m N) by (done || lia).
  rewrite (seq_split_at (Z.to_nat N) (K - 1)) by lia.
  destruct (attempt_loop_retries args (K - 1) 0
              ((K - 1)%nat :: seq (S (K - 1)) (Z.to_nat N - S (K - 1))) None None m [])
    as (last' & latest' & m' & tr' & Hrun & Hb & Hn & _).
  { intros i Hi. apply Hfail. lia. }
  rewrite Hrun.
  destruct (attempt_loop_success args (K - 1)
              (seq (S (K - 1)) (Z.to_nat N - S (K - 1))) v last' latest' m' tr' Hf Hc)
    as (Hout & Hb' & Hn' & Hlast & m'' & Hfin & Hlat & _).
  split_and!; try done.
  - rewrite Hb', Hb. unfold begin_calls. simpl. lia.
  - rewrite Hn', Hn. unfold func_calls. simpl. lia.
  - exists m''. split; [done|]. rewrite Hlat. f_equal. lia.
Qed.

(** C3. When some cycle, after cycles that ended in retryable failures, ends
    in an exception [e] that no resource manager of its transaction
    classifies as retryable, the wrapper raises exactly [e] and begins no
    further transaction: cycle [K] (zero-based) is the last of [K + 1]. *)
Theorem non_retryable_propagates (tm : option (Manager E))
    (get_tm : option (Args -> option (Manager E))) (args : Args) (m : Manager E)
    (N : Z) (K : nat) (e : E) :
  resolve_manager tm get_tm args = Some m ->
  _txn m = None ->
  retry_attempt_count m = Some N ->
  Z.of_nat K < N ->
  (forall i, (i < K)%nat -> exists e', retryable_failure attempt args i e') ->
  attempt_error attempt args K = Some e ->
  is_retryable_resources (joined (attempt args K)) e = false ->
  let r := decorated_func attempt tm get_tm args in
  out r = Raise (Foreign e) /\
  begin_calls (events r) = S K /\
  func_calls (events r) = S K.
Proof.
  intros Hm Htxn Hcount HKN Hfail Herr Hvote r. subst r.
  rewrite (decorated_func_enters_loop tm get_tm args m N) by (done || lia).
  rewrite (seq_split_at (Z.to_nat N) K) by lia.
  destruct (attempt_loop_retries args K 0 (K :: seq (S K) (Z.to_nat N - S K)) None None m [])
    as (last' & latest' & m' & tr' & Hrun & Hb & Hn & _).
  { intros i Hi. apply Hfail. lia. }
  rewrite Hrun.
  destruct (attempt_loop_fatal args K (seq (S K) (Z.to_nat N - S K)) e last' latest' m' tr'
              Herr Hvote) as (Hout & Hb' & Hn').
  split_and!; try done.
  - rewrite Hb', Hb. unfold begin_calls. simpl. lia.
  - rewrite Hn', Hn. unfold func_calls. simpl. lia.
Qed.

(** C4. When the resolved manager has a transaction in its [_txn] slot the
    wrapper raises [TransactionAlreadyInProcess], whatever
    [retry_attempt_count] is (present, absent, zero or negative), and begins
    nothing: the manager is left as it was. *)
Theorem reentry_rejected (tm : option (Manager E))
    (get_tm : option (Args -> option (Manager E))) (args : Args) (m : Manager E)
    (t : Transaction E) :
  resolve_manager tm get_tm args = Some m ->
  _txn m = Some t ->
  let r := decorated_func attempt tm get_tm args in
  out r = Raise (TransactionAlreadyInProcess default_msg) /\
  begin_calls (events r) = 0%nat /\
  func_calls (events r) = 0%nat /\
  final r = Some m.
Proof.
  intros Hm Htxn r. subst r. unfold decorated_func, ensure_transactionless.
  rewrite Hm, Htxn. done.
Qed.

(** C5 (amended). A call whose resolved manager is null fails the
    [assert] with an [AssertionError]; a call whose manager has no
    transaction in progress and whose [retry_attempt_count] is missing,
    [None] or [0] raises [NotRetryable].  Neither begins a transaction nor
    calls the decorated function. *)
Theorem unconfigured_fails_early (tm : option (Manager E))
    (get_tm : option (Args -> option (Manager E))) (args : Args) :
  unconfigured (resolve_manager tm get_tm args) ->
  let r := decorated_func attempt tm get_tm args in
  out r = Raise (match resolve_manager tm get_tm args with
                 | None => AssertionError "No transaction manager available for retry"
                 | Some _ => NotRetryable
                     "TransactionManager is not configured with default retry attempt count"
                 end) /\
  begin_calls (events r) = 0%nat /\
  func_calls (events r) = 0%nat.
Proof.
  intros Hun r. subst r. unfold decorated_func, ensure_transactionless.
  destruct (resolve_manager tm get_tm args) as [m|]; [|done].
  destruct Hun as [Htxn [Hc|Hc]]; rewrite Htxn, Hc; done.
Qed.

(** X6. A negative [retry_attempt_count] is truthy and gives an empty [range]:
    the loop body never runs, nothing is begun, and the [raise] after the
    loop reads the unbound [num]. *)
Lemma negative_count_unbound (tm : option (Manager E))
    (get_tm : option (Args -> option (Manager E))) (args : Args) (m : Manager E) (N : Z) :
  resolve_manager tm get_tm args = Some m ->
  _txn m = None ->
  retry_attempt_count m = Some N ->
  N < 0 ->
  let r := decorated_func attempt tm get_tm args in
  out r = Raise (UnboundLocalError "num") /\ begin_calls (events r) = 0%nat.
Proof.
  intros Hm Htxn Hcount HN r. subst r. unfold decorated_func, ensure_transactionless.
  rewrite Hm, Htxn, Hcount. destruct N as [|p|p]; try lia. done.
Qed.

(** ** Every run of the wrapper *)

Lemma commit_calls_app (a b : list event) :
  commit_calls (a ++ b) = (commit_calls a + commit_calls b)%nat.
Proof. unfold commit_calls. by rewrite List.filter_app, length_app. Qed.

Lemma log_attempt_no_commit (num : nat) (tr : list event) :
  commit_calls (log_attempt num tr) = commit_calls tr.
Proof.
  unfold log_attempt. destruct (1 <=? num)%nat; [|done].
  rewrite commit_calls_app. unfold commit_calls. simpl. lia.
Qed.

(** What the loop over the cycles [k, k + n) leaves behind, whatever the
    collaborators do: it begins [b <= n] transactions, calls the function
    once in each, commits at most as often, and [latest_retry_count] is the
    number of the last cycle begun. *)
Lemma attempt_loop_counts (args : Args) (n : nat) :
  forall (k : nat) (last : option nat) (latest_exc : option E) (m : Manager E)
         (tr : list event),
  let r := attempt_loop attempt args (seq k n) last latest_exc m tr in
  exists b : nat,
    (b <= n)%nat /\ ((0 < n)%nat -> (0 < b)%nat) /\
    begin_calls (events r) = (begin_calls tr + b)%nat /\
    func_calls (events r) = (func_calls tr + b)%nat /\
    (commit_calls (events r) <= commit_calls tr + b)%nat /\
    exists m', final r = Some m' /\
      retry_attempt_count m' = retry_attempt_count m /\
      ((0 < b)%nat -> latest_retry_count m' = Some (Z.of_nat (k + b - 1))) /\
      (b = 0%nat -> m' = m).
Proof.
  induction n as [|n IH]; intros k last latest_exc m tr.
  - exists 0%nat. destruct last; simpl; (split_and!; try lia);
      exists m; split_and!; first [done | lia].
  - destruct (log_attempt_neutral k tr) as [Hb Hn].
    pose proof (log_attempt_no_commit k tr) as Hc.
    cbn [seq attempt_loop begin]. unfold try_body.
    destruct (func_result (attempt args k)) as [e|val].
    + destruct (is_retryable _ e).
      * match goal with
        | |- context [attempt_loop attempt args (seq (S k) n) ?l ?x ?m1 ?t1] =>
            destruct (IH (S k) l x m1 t1)
              as (b & Hle & Hpos & Hbb & Hff & Hcc & m' & Hfin & Hrc & Hlat & Hzero)
        end.
        exists (S b). rewrite Hbb, Hff.
        rewrite !begin_calls_app, !func_calls_app, Hb, Hn.
        split_and!; try lia.
        -- unfold begin_calls. simpl. lia.
        -- unfold func_calls. simpl. lia.
        -- etrans; [exact Hcc|]. rewrite !commit_calls_app, Hc.
           unfold commit_calls. simpl. lia.
        -- exists m'. split_and!; [done | by rewrite Hrc | | lia].
           intros _. destruct b as [|b'].
           ++ rewrite (Hzero eq_refl). simpl. do 2 f_equal. lia.
           ++ rewrite Hlat by lia. do 2 f_equal. lia.
      * exists 1%nat. cbn [events final].
        rewrite !begin_calls_app, !func_calls_app, !commit_calls_app, Hb, Hn, Hc.
        unfold begin_calls, func_calls, commit_calls. simpl.
        split_and!; try lia.
        eexists. split_and!; [reflexivity | done | | lia].
        intros _. simpl. do 2 f_equal. lia.
    + destruct (commit_result (attempt args k)) as [e|].
      * destruct (is_retryable _ e).
        -- match goal with
           | |- context [attempt_loop attempt args (seq (S k) n) ?l ?x ?m1 ?t1] =>
               destruct (IH (S k) l x m1 t1)
                 as (b & Hle & Hpos & Hbb & Hff & Hcc & m' & Hfin & Hrc & Hlat & Hzero)
           end.
           exists (S b). rewrite Hbb, Hff.
           rewrite !begin_calls_app, !func_calls_app, Hb, Hn.
           split_and!; try lia.
           ++ unfold begin_calls. simpl. lia.
           ++ unfold func_calls. simpl. lia.
           ++ etrans; [exact Hcc|]. rewrite !commit_calls_app, Hc.
              unfold commit_calls. simpl. lia.
           ++ exists m'. split_and!; [done | by rewrite Hrc | | lia].
              intros _. destruct b as [|b'].
              ** rewrite (Hzero eq_refl). simpl. do 2 f_equal. lia.
              ** rewrite Hlat by lia. do 2 f_equal. lia.
        -- exists 1%nat. cbn [events final].
           rewrite !begin_calls_app, !func_calls_app, !commit_calls_app, Hb, Hn, Hc.
           unfold begin_calls, func_calls, commit_calls. simpl.
           split_and!; try lia.
           eexists. split_and!; [reflexivity | done | | lia].
           intros _. simpl. do 2 f_equal. lia.
      * exists 1%nat. cbn [events final].
        rewrite !begin_calls_app, !func_calls_app, !commit_calls_app, Hb, Hn, Hc.
        unfold begin_calls, func_calls, commit_calls. simpl.
        split_and!; try lia.
        eexists. split_and!; [reflexivity | done | | lia].
        intros _. simpl. do 2 f_equal. lia.
Qed.

(** The first cycle that does not end in a retryable failure, if there is
    one among the cycles [k, k + n). *)
Lemma first_decisive (args : Args) (n : nat) :
  forall k : nat,
  (forall i, (k <= i < k + n)%nat -> exists e, retryable_failure attempt args i e) \/
  exists j : nat, (j < n)%nat /\
    (forall i, (k <= i < k + j)%nat -> exists e, retryable_failure attempt args i e) /\
    ((exists v, func_result (attempt args (k + j)) = inr v /\
                commit_result (attempt args (k + j)) = None) \/
     (exists e, attempt_error attempt args (k + j) = Some e /\
                is_retryable_resources (joined (attempt args (k + j))) e = false)).
Proof.
  induction n as [|n IH]; intros k.
  - left. intros i Hi. lia.
  - assert ((exists v, func_result (attempt args k) = inr v /\
                       commit_result (attempt args k) = None) \/
            (exists e, attempt_error attempt args k = Some e)) as [Hok | [e He]].
    { unfold attempt_error. destruct (func_result (attempt args k)) as [e|v].
      - right. by exists e.
      - destruct (commit_result (attempt args k)) as [e|].
        + right. by exists e.
        + left. by exists v. }
    + right. exists 0%nat. rewrite Nat.add_0_r. split_and!; [lia | intros; lia | by left].
    + destruct (is_retryable_resources (joined (attempt args k)) e) eqn:Hvote.
      * destruct (IH (S k)) as [Hall | (j & Hj & Hpre & Hdec)].
        -- left. intros i Hi. destruct (decide (i = k)) as [->|Hne].
           ++ by exists e.
           ++ apply Hall. lia.
        -- right. exists (S j). replace (k + S j)%nat with (S k + j)%nat by lia.
           split_and!; [lia | | done].
           intros i Hi. destruct (decide (i = k)) as [->|Hne].
           ++ by exists e.
           ++ apply Hpre. lia.
      * right. exists 0%nat. rewrite Nat.add_0_r.
        split_and!; [lia | intros; lia | right; by exists e].
Qed.

Lemma seq_split_from (k n j : nat) :
  (j < n)%nat -> seq k n = seq k j ++ (k + j)%nat :: seq (S (k + j)) (n - S j).
Proof.
  intros Hj. replace n with (j + S (n - S j))%nat at 1 by lia.
  by rewrite seq_app.
Qed.

(** How a run of the loop from an empty trace ends: out of cycles, with a
    value, or with an exception nobody retries. *)
Lemma attempt_loop_outcome (args : Args) (n : nat) (m : Manager E) :
  (0 < n)%nat ->
  let r := attempt_loop attempt args (seq 0 n) None None m [] in
  ((forall i, (i < n)%nat -> exists e, retryable_failure attempt args i e) /\
   out r = Raise (CannotRetryAnymore (Z.of_nat n) (attempt_error attempt args (n - 1))) /\
   begin_calls (events r) = n) \/
  (exists j v, (j < n)%nat /\
     (forall i, (i < j)%nat -> exists e, retryable_failure attempt args i e) /\
     func_result (attempt args j) = inr v /\ commit_result (attempt args j) = None /\
     out r = Return v /\ begin_calls (events r) = S j) \/
  (exists j e, (j < n)%nat /\
     (forall i, (i < j)%nat -> exists e', retryable_failure attempt args i e') /\
     attempt_error attempt args j = Some e /\
     is_retryable_resources (joined (attempt args j)) e = false /\
     out r = Raise (Foreign e) /\ begin_calls (events r) = S j).
Proof.
  intros Hn r. subst r.
  destruct (first_decisive args n 0) as [Hall | (j & Hj & Hpre & Hdec)].
  - left.
    destruct (attempt_loop_retries args n 0 [] None None m [] Hall)
      as (last' & latest' & m' & tr' & Hrun & Hb & _ & _ & _ & Hp).
    rewrite app_nil_r in Hrun. rewrite Hrun. destruct Hp as [-> ->]; [done|].
    simpl. split_and!.
    + intros i Hi. apply Hall. lia.
    + do 2 f_equal. lia.
    + rewrite Hb. unfold begin_calls. simpl. lia.
  - simpl in Hdec.
    rewrite (seq_split_from 0 n j Hj). change (0 + j)%nat with j.
    destruct (attempt_loop_retries args j 0 (j :: seq (S j) (n - S j)) None None m [] Hpre)
      as (last' & latest' & m' & tr' & Hrun & Hb & _).
    rewrite Hrun.
    assert (forall i, (i < j)%nat -> exists e, retryable_failure attempt args i e) as Hpre'.
    { intros i Hi. apply Hpre. lia. }
    destruct Hdec as [(v & Hf & Hc) | (e & Herr & Hvote)].
    + right. left. exists j, v.
      destruct (attempt_loop_success args j (seq (S j) (n - S j)) v last' latest' m' tr' Hf Hc)
        as (Hout & Hb' & _).
      split_and!; try done. rewrite Hb', Hb. unfold begin_calls. simpl. lia.
    + right. right. exists j, e.
      destruct (attempt_loop_fatal args j (seq (S j) (n - S j)) e last' latest' m' tr'
                  Herr Hvote) as (Hout & Hb' & _).
      split_and!; try done. rewrite Hb', Hb. unfold begin_calls. simpl. lia.
Qed.

(** The wrapper either enters the loop, with a manager that has no
    transaction in progress and a count of at least one, or raises one of
    its own errors before any cycle. *)
Lemma decorated_func_loop_or_early (tm : option (Manager E))
    (get_tm : option (Args -> option (Manager E))) (args : Args) :
  (exists m N,
     resolve_manager tm get_tm args = Some m /\ _txn m = None /\
     retry_attempt_count m = Some N /\ 1 <= N /\
     decorated_func attempt tm get_tm args
       = attempt_loop attempt args (seq 0 (Z.to_nat N)) None None m []) \/
  (exists x, out (decorated_func attempt tm get_tm args) = Raise x /\
     (forall e, x <> Foreign e) /\ (forall t c, x <> CannotRetryAnymore t c)).
Proof.
  destruct (resolve_manager tm get_tm args) as [m|] eqn:Hm.
  - destruct (_txn m) as [t|] eqn:Htxn.
    + right. unfold decorated_func, ensure_transactionless. rewrite Hm, Htxn.
      eexists. split; [reflexivity|]. done.
    + destruct (retry_attempt_count m) as [[|p|p]|] eqn:Hc.
      * right. unfold decorated_func, ensure_transactionless. rewrite Hm, Htxn, Hc.
        eexists. split; [reflexivity|]. done.
      * left. exists m, (Z.pos p). split_and!; try done; [lia|].
        apply decorated_func_enters_loop; try done. lia.
      * right. unfold decorated_func, ensure_transactionless. rewrite Hm, Htxn, Hc.
        eexists. split; [reflexivity|]. done.
      * right. unfold decorated_func, ensure_transactionless. rewrite Hm, Htxn, Hc.
        eexists. split; [reflexivity|]. done.
  - right. unfold decorated_func. rewrite Hm. eexists. split; [reflexivity|]. done.
Qed.

(** X1. Whatever the decorated function, the commits and the resource
    managers do, a call that enters the loop with the count [N >= 1] begins
    at least one and at most [N] transactions, calls the function once per
    transaction begun, commits at most as often, and leaves
    [latest_retry_count] at the number of the last cycle begun. *)
Theorem attempts_bounded (tm : option (Manager E))
    (get_tm : option (Args -> option (Manager E))) (args : Args) (m : Manager E) (N : Z) :
  resolve_manager tm get_tm args = Some m ->
  _txn m = None ->
  retry_attempt_count m = Some N ->
  1 <= N ->
  let r := decorated_func attempt tm get_tm args in
  (1 <= begin_calls (events r))%nat /\
  Z.of_nat (begin_calls (events r)) <= N /\
  func_calls (events r) = begin_calls (events r) /\
  (commit_calls (events r) <= func_calls (events r))%nat /\
  exists m', final r = Some m' /\
    latest_retry_count m' = Some (Z.of_nat (begin_calls (events r)) - 1).
Proof.
  intros Hm Htxn Hcount HN r. subst r.
  rewrite (decorated_func_enters_loop tm get_tm args m N) by done.
  destruct (attempt_loop_counts args (Z.to_nat N) 0 None None m [])
    as (b & Hle & Hpos & Hb & Hf & Hc & m' & Hfin & _ & Hlat & _).
  rewrite Hb, Hf. unfold begin_calls, func_calls, commit_calls in *. simpl in *.
  specialize (Hpos ltac:(lia)).
  split_and!; try lia.
  exists m'. split; [done|]. rewrite Hlat by lia. f_equal. lia.
Qed.

(** X2. A value the wrapper returns is the value the decorated function
    returned in the last cycle begun, the commit of that cycle went through,
    and every cycle before it ended in a retryable failure: no result is
    handed out for work that was not committed. *)
Theorem returned_value_was_committed (tm : option (Manager E))
    (get_tm : option (Args -> option (Manager E))) (args : Args) (v : V) :
  out (decorated_func attempt tm get_tm args) = Return v ->
  exists num : nat,
    func_result (attempt args num) = inr v /\
    commit_result (attempt args num) = None /\
    begin_calls (events (decorated_func attempt tm get_tm args)) = S num /\
    forall i, (i < num)%nat -> exists e, retryable_failure attempt args i e.
Proof.
  intros Hout.
  destruct (decorated_func_loop_or_early tm get_tm args)
    as [(m & N & _ & _ & _ & HN & Hloop) | (x & Hx & _)].
  - rewrite Hloop in Hout |- *.
    destruct (attempt_loop_outcome args (Z.to_nat N) m ltac:(lia))
      as [(_ & Ho & _) | [(j & v' & _ & Hpre & Hf & Hc & Ho & Hb)
                         | (j & e & _ & _ & _ & _ & Ho & _)]];
      rewrite Ho in Hout; try discriminate Hout.
    injection Hout as ->. by exists j.
  - rewrite Hx in Hout. discriminate Hout.
Qed.

(** X3. An exception of the decorated function or of the commit leaves the
    wrapper as itself only when no resource manager of its cycle classifies
    it as retryable; that cycle is the last one begun. *)
Theorem reraised_exception_is_not_retryable (tm : option (Manager E))
    (get_tm : option (Args -> option (Manager E))) (args : Args) (e : E) :
  out (decorated_func attempt tm get_tm args) = Raise (Foreign e) ->
  exists num : nat,
    attempt_error attempt args num = Some e /\
    is_retryable_resources (joined (attempt args num)) e = false /\
    begin_calls (events (decorated_func attempt tm get_tm args)) = S num /\
    forall i, (i < num)%nat -> exists e', retryable_failure attempt args i e'.
Proof.
  intros Hout.
  destruct (decorated_func_loop_or_early tm get_tm args)
    as [(m & N & _ & _ & _ & HN & Hloop) | (x & Hx & Hnf & _)].
  - rewrite Hloop in Hout |- *.
    destruct (attempt_loop_outcome args (Z.to_nat N) m ltac:(lia))
      as [(_ & Ho & _) | [(j & v' & _ & _ & _ & _ & Ho & _)
                         | (j & e' & _ & Hpre & Herr & Hvote & Ho & Hb)]];
      rewrite Ho in Hout; try discriminate Hout.
    injection Hout as ->. by exists j.
  - rewrite Hx in Hout. injection Hout as ->. by destruct (Hnf e).
Qed.

(** X4. [CannotRetryAnymore] is raised only by a call that entered the loop
    with a count [N >= 1] and saw all [N] cycles end in a retryable failure:
    the number in its message is [N], [N] transactions were begun, and its
    cause is the exception of the last cycle. *)
Theorem out_of_retries_means_all_cycles_failed (tm : option (Manager E))
    (get_tm : option (Args -> option (Manager E))) (args : Args) (tried : Z)
    (cause : option E) :
  out (decorated_func attempt tm get_tm args) = Raise (CannotRetryAnymore tried cause) ->
  exists m,
    resolve_manager tm get_tm args = Some m /\
    retry_attempt_count m = Some tried /\
    1 <= tried /\
    begin_calls (events (decorated_func attempt tm get_tm args)) = Z.to_nat tried /\
    cause = attempt_error attempt args (Z.to_nat tried - 1) /\
    forall i, (i < Z.to_nat tried)%nat -> exists e, retryable_failure attempt args i e.
Proof.
  intros Hout.
  destruct (decorated_func_loop_or_early tm get_tm args)
    as [(m & N & Hm & _ & Hc & HN & Hloop) | (x & Hx & _ & Hnc)].
  - rewrite Hloop in Hout |- *.
    destruct (attempt_loop_outcome args (Z.to_nat N) m ltac:(lia))
      as [(Hall & Ho & Hb) | [(j & v' & _ & _ & _ & _ & Ho & _)
                             | (j & e' & _ & _ & _ & _ & Ho & _)]];
      rewrite Ho in Hout; try discriminate Hout.
    injection Hout as Ht Hcause. assert (tried = N) as -> by lia.
    exists m. split_and!; done.
  - rewrite Hx in Hout. injection Hout as ->. by destruct (Hnc tried cause).
Qed.

(** X5. [is_retryable] answers yes exactly when some resource manager of
    the transaction has a [should_retry] method that accepts the error; a
    transaction without resource managers, or whose managers all lack the
    method, is never retried. *)
Theorem is_retryable_iff_some_vote (txn : Transaction E) (error : E) :
  is_retryable txn error = true <->
  exists dm vote, In dm (_resources txn) /\ should_retry dm = Some vote /\ vote error = true.
Proof.
  unfold is_retryable. induction (_resources txn) as [|dm rs IH]; simpl.
  - split; [done | by intros (? & ? & [] & _)].
  - destruct (should_retry dm) as [vote|] eqn:Hs.
    + destruct (vote error) eqn:Hv.
      * split; [|done]. intros _. exists dm, vote. split_and!; [by left | done | done].
      * rewrite IH. split.
        -- intros (dm' & vote' & Hin & H1 & H2). exists dm', vote'. split_and!; [by right|done|done].
        -- intros (dm' & vote' & [<-|Hin] & H1 & H2).
           ++ rewrite Hs in H1. injection H1 as <-. congruence.
           ++ by exists dm', vote'.
    + rewrite IH. split.
      * intros (dm' & vote' & Hin & H1 & H2). exists dm', vote'. split_and!; [by right|done|done].
      * intros (dm' & vote' & [<-|Hin] & H1 & H2).
        -- congruence.
        -- by exists dm', vote'.
Qed.

End Facts.

(** ** The scenarios *)

Lemma retries_exhausted_witness :
  let r := decorated_func always_conflict (Some (fresh_manager (Some 3))) None tt in
  exists e_last,
    attempt_error always_conflict tt 2 = Some e_last /\
    out r = Raise (CannotRetryAnymore 3 (Some e_last)) /\
    begin_calls (events r) = 3%nat /\
    func_calls (events r) = 3%nat.
Proof.
  apply (retries_exhausted always_conflict (Some (fresh_manager (Some 3))) None tt
           (fresh_manager (Some 3)) 3);
    [reflexivity | reflexivity | reflexivity | lia |].
  intros i _. exists i. split; reflexivity.
Defined.

Lemma succeeds_on_attempt_witness :
  let r := decorated_func third_time_lucky None
             (Some (fun _ : unit => Some (fresh_manager (Some 5)))) tt in
  out r = Return 42%nat /\
  begin_calls (events r) = 3%nat /\
  func_calls (events r) = 3%nat /\
  List.last (events r) EvLogFatal = EvCommit 2 /\
  exists m', final r = Some m' /\ latest_retry_count m' = Some 2.
Proof.
  apply (succeeds_on_attempt third_time_lucky None
           (Some (fun _ : unit => Some (fresh_manager (Some 5)))) tt
           (fresh_manager (Some 5)) 5 3 42%nat);
    [reflexivity | reflexivity | reflexivity | lia | lia | | reflexivity | reflexivity].
  intros i Hi. exists i. destruct i as [|[|i]]; [split; reflexivity | split; reflexivity | lia].
Defined.

Lemma non_retryable_propagates_witness :
  let r := decorated_func conflict_then_crash (Some (fresh_manager (Some 4))) None tt in
  out r = Raise (Foreign 101%nat) /\
  begin_calls (events r) = 2%nat /\
  func_calls (events r) = 2%nat.
Proof.
  apply (non_retryable_propagates conflict_then_crash (Some (fresh_manager (Some 4))) None tt
           (fresh_manager (Some 4)) 4 1 101%nat);
    [reflexivity | reflexivity | reflexivity | lia | | reflexivity | reflexivity].
  intros i Hi. exists 100%nat. destruct i as [|i]; [split; reflexivity | lia].
Defined.

Lemma reentry_rejected_witness :
  let r := decorated_func always_conflict (Some (busy_manager None)) None tt in
  out r = Raise (TransactionAlreadyInProcess default_msg) /\
  begin_calls (events r) = 0%nat /\
  func_calls (events r) = 0%nat /\
  final r = Some (busy_manager None).
Proof.
  apply (reentry_rejected always_conflict (Some (busy_manager None)) None tt
           (busy_manager None) {| txn_num := 0; _resources := [] |});
    reflexivity.
Defined.

Lemma unconfigured_fails_early_witness :
  let r := decorated_func always_conflict (Some (fresh_manager (Some 0))) None tt in
  out r = Raise (NotRetryable
            "TransactionManager is not configured with default retry attempt count") /\
  begin_calls (events r) = 0%nat /\
  func_calls (events r) = 0%nat.
Proof.
  apply (unconfigured_fails_early always_conflict (Some (fresh_manager (Some 0))) None tt).
  split; [reflexivity | right; reflexivity].
Defined.

(** C5 as stated fails: without a manager the wrapper stops at the [assert],
    which raises [AssertionError], not [NotRetryable]. *)
Lemma null_manager_not_NotRetryable :
  resolve_manager (E := nat) (Args := unit) None None tt = None /\
  ~ exists msg,
      out (decorated_func always_conflict None None tt) = Raise (NotRetryable msg).
Proof.
  split; [reflexivity|]. intros [msg H]. discriminate H.
Qed.

Lemma attempts_bounded_witness :
  let r := decorated_func third_time_lucky (Some (fresh_manager (Some 5))) None tt in
  (1 <= begin_calls (events r))%nat /\
  Z.of_nat (begin_calls (events r)) <= 5 /\
  func_calls (events r) = begin_calls (events r) /\
  (commit_calls (events r) <= func_calls (events r))%nat /\
  exists m', final r = Some m' /\
    latest_retry_count m' = Some (Z.of_nat (begin_calls (events r)) - 1).
Proof.
  apply (attempts_bounded third_time_lucky (Some (fresh_manager (Some 5))) None tt
           (fresh_manager (Some 5)) 5);
    [reflexivity | reflexivity | reflexivity | lia].
Defined.

Lemma returned_value_was_committed_witness :
  exists num : nat,
    func_result (third_time_lucky tt num) = inr 42%nat /\
    commit_result (third_time_lucky tt num) = None /\
    begin_calls (events (decorated_func third_time_lucky
                           (Some (fresh_manager (Some 5))) None tt)) = S num /\
    forall i, (i < num)%nat -> exists e, retryable_failure third_time_lucky tt i e.
Proof.
  apply (returned_value_was_committed third_time_lucky
           (Some (fresh_manager (Some 5))) None tt 42%nat).
  reflexivity.
Defined.

Lemma reraised_exception_is_not_retryable_witness :
  exists num : nat,
    attempt_error conflict_then_crash tt num = Some 101%nat /\
    is_retryable_resources (joined (conflict_then_crash tt num)) 101%nat = false /\
    begin_calls (events (decorated_func conflict_then_crash
                           (Some (fresh_manager (Some 4))) None tt)) = S num /\
    forall i, (i < num)%nat -> exists e', retryable_failure conflict_then_crash tt i e'.
Proof.
  apply (reraised_exception_is_not_retryable conflict_then_crash
           (Some (fresh_manager (Some 4))) None tt 101%nat).
  reflexivity.
Defined.

Lemma out_of_retries_means_all_cycles_failed_witness :
  exists m,
    resolve_manager (Some (fresh_manager (Some 3))) None tt = Some m /\
    retry_attempt_count m = Some 3 /\
    1 <= 3 /\
    begin_calls (events (decorated_func always_conflict
                           (Some (fresh_manager (Some 3))) None tt)) = Z.to_nat 3 /\
    Some 2%nat = attempt_error always_conflict tt (Z.to_nat 3 - 1) /\
    forall i, (i < Z.to_nat 3)%nat -> exists e, retryable_failure always_conflict tt i e.
Proof.
  apply (out_of_retries_means_all_cycles_failed always_conflict
           (Some (fresh_manager (Some 3))) None tt 3 (Some 2%nat)).
  reflexivity.
Defined.

Lemma negative_count_unbound_witness :
  let r := decorated_func always_conflict (Some (fresh_manager (Some (-2)))) None tt in
  out r = Raise (UnboundLocalError "num") /\ begin_calls (events r) = 0%nat.
Proof.
  apply (negative_count_unbound always_conflict (Some (fresh_manager (Some (-2)))) None tt
           (fresh_manager (Some (-2))) (-2));
    [reflexivity | reflexivity | reflexivity | lia].
Defined.

End RetryFacts.

(* ===================================================================== *)
(** * Properties of the nested mutable tracker                            *)
(* ===================================================================== *)

Module JsonFacts.
Import Json.

(** Induction along the [__parent__] chain. *)
Lemma parent_chain_ind (P : Wrapper -> Prop) :
  (forall w, __parent__ w = None -> P w) ->
  (forall w parent, __parent__ w = Some parent -> P parent -> P w) ->
  forall w, P w.
Proof.
  intros Htop Hchild. fix IH 1. intros [c d [parent|] ps].
  - apply (Hchild _ parent); [reflexivity | apply IH].
  - apply Htop. reflexivity.
Qed.

(** [changed] leaves the store alone and flags the owners of the root of
    the chain, once each. *)
Lemma changed_spec (w : Wrapper) (st : State) :
  changed w st = mutable_changed (_parents (root_of w)) st.
Proof.
  induction w as [w Hw | w parent Hw IH] using parent_chain_ind.
  - destruct w as [c d p ps]. simpl in *. by rewrite Hw.
  - destruct w as [c d p ps]. simpl in *. by rewrite Hw.
Qed.

Lemma changed_heap (w : Wrapper) (st : State) : heap (changed w st) = heap st.
Proof. by rewrite changed_spec. Qed.

Lemma changed_tracked (w root : Wrapper) (parent : Rec) (key : string) (st : State) :
  root_of w = root ->
  tracked_root root parent key ->
  events (changed w st) = events st ++ [FlagModified parent key].
Proof.
  intros <- [_ Hp]. rewrite changed_spec. simpl. by rewrite Hp.
Qed.

(** *** Raw containers *)

Lemma insert_same (h : list RawObj) (a : addr) (o : RawObj) :
  h !! a = Some o -> <[a := o]> h = h.
Proof. apply list_insert_id. Qed.

(** A method that the table marks as not mutating leaves every existing
    object as it is; it may allocate. *)
Lemma raw_call_read (limit : nat) (c : Call) (h : list RawObj) (a : addr) :
  table_lookup (method_of c) method_table = Some false ->
  exists fresh, snd (raw_call limit c h a) = h ++ fresh.
Proof.
  intros Hread. unfold raw_call.
  destruct (h !! a) as [[items|items]|] eqn:Ha.
  - exists []. rewrite app_nil_r.
    destruct c; try discriminate Hread; simpl;
      repeat case_match; simplify_eq/=; by apply insert_same.
  - destruct c; try discriminate Hread; simpl;
      repeat case_match; simplify_eq/=;
      solve [ eexists; rewrite (insert_same _ _ _ Ha); reflexivity
            | exists []; rewrite app_nil_r; by apply insert_same ].
  - exists []. by rewrite app_nil_r.
Qed.

(** A method called on the container at [a] leaves the one at [b] alone. *)
Lemma raw_call_other (limit : nat) (c : Call) (h : list RawObj) (a b : addr) (o : RawObj) :
  a <> b ->
  h !! b = Some o ->
  snd (raw_call limit c h a) !! b = Some o.
Proof.
  intros Hne Hb. unfold raw_call.
  destruct (h !! a) as [[items|items]|]; [| |done].
  - destruct (dict_method limit c h items) as [value items']. simpl.
    by rewrite list_lookup_insert_ne.
  - destruct (list_method limit c h items) as [[value items'] fresh]. simpl.
    apply lookup_app_l_Some. by rewrite list_lookup_insert_ne.
Qed.

(** The store never shrinks. *)
Lemma raw_call_length (limit : nat) (c : Call) (h : list RawObj) (a : addr) :
  (length h <= length (snd (raw_call limit c h a)))%nat.
Proof.
  unfold raw_call. destruct (h !! a) as [[items|items]|]; [| |done].
  - destruct (dict_method limit c h items) as [value items']. simpl.
    by rewrite length_insert.
  - destruct (list_method limit c h items) as [[value items'] fresh]. simpl.
    rewrite length_app, length_insert. lia.
Qed.

(** *** Wrappers: what a call does to the trace *)

Lemma replacer_events (limit : nat) (mutates : bool) (w : Wrapper) (c : Call) (st : State) :
  events (snd (replacer limit mutates w c st)) =
    if mutates && negb (raised (fst (replacer limit mutates w c st)))
    then events st ++ map (fun pk => FlagModified (fst pk) (snd pk)) (_parents (root_of w))
    else events st.
Proof.
  unfold replacer. destruct (raw_call limit c (heap st) (_d w)) as [value h].
  destruct value, mutates; simpl; try done; by rewrite changed_spec.
Qed.

Lemma replacer_heap (limit : nat) (mutates : bool) (w : Wrapper) (c : Call) (st : State) :
  heap (snd (replacer limit mutates w c st)) = snd (raw_call limit c (heap st) (_d w)).
Proof.
  unfold replacer. destruct (raw_call limit c (heap st) (_d w)) as [value h].
  destruct value, mutates; simpl; try done; by rewrite changed_heap.
Qed.

Lemma getitem_state (limit : nat) (w : Wrapper) (key : Key) (st : State) :
  snd (__getitem__ limit w key st) = st.
Proof.
  unfold __getitem__.
  destruct (raw_call_read limit (call_getitem key) (heap st) (_d w)) as [fresh Hfresh];
    [reflexivity|].
  assert (snd (raw_call limit (call_getitem key) (heap st) (_d w)) = heap st) as Hsame.
  { unfold raw_call. destruct (heap st !! _d w) as [[items|items]|] eqn:Hd; [| |done].
    - simpl. repeat case_match; simplify_eq/=; by apply insert_same.
    - simpl. repeat case_match; simplify_eq/=; rewrite app_nil_r; by apply insert_same. }
  destruct (raw_call limit (call_getitem key) (heap st) (_d w)) as [value h].
  simpl in Hsame. subst h. destruct st as [h ev]. by destruct value.
Qed.

Lemma state_eta (st : State) : {| heap := heap st; events := events st |} = st.
Proof. by destruct st. Qed.

(** A replacer for a method that does not mutate leaves the trace alone and
    only adds to the store. *)
Lemma replacer_read (limit : nat) (w : Wrapper) (c : Call) (st : State) :
  table_lookup (method_of c) method_table = Some false ->
  events (snd (replacer limit false w c st)) = events st /\
  exists fresh, heap (snd (replacer limit false w c st)) = heap st ++ fresh.
Proof.
  intros Hread. split.
  - by rewrite replacer_events.
  - rewrite replacer_heap. by apply raw_call_read.
Qed.

(** The flag the table gives a name does not depend on the class. *)
Lemma installed_flag (k : Class) (m : Method) (mutates : bool) :
  installed k m = Some mutates -> table_lookup m method_table = Some mutates.
Proof. unfold installed. by destruct (wraps_has k m). Qed.

(** Every call of a method the table marks as not mutating. *)
Lemma call_method_read (limit : nat) (w : Wrapper) (c : Call) (st : State) :
  table_lookup (method_of c) method_table = Some false ->
  events (snd (call_method limit w c st)) = events st /\
  exists fresh, heap (snd (call_method limit w c st)) = heap st ++ fresh.
Proof.
  intros Hread.
  assert (forall r : Result, events (snd (r, st)) = events st /\
            exists fresh, heap (snd (r, st)) = heap st ++ fresh) as Hsame.
  { intros r. split; [done|]. exists []. by rewrite app_nil_r. }
  unfold call_method.
  destruct (cls w), c; try discriminate Hread;
    try (rewrite (surjective_pairing (__getitem__ _ _ _ _)), getitem_state; apply Hsame);
    try (unfold __eq__; apply Hsame);
    try (unfold __repr__; case_match; apply Hsame);
    (destruct (installed _ _) as [mutates|] eqn:Hi; [|apply Hsame];
     apply installed_flag in Hi; rewrite Hread in Hi; injection Hi as <-;
     by apply replacer_read).
Qed.

(** What a read gives back does not depend on the trace. *)
Lemma call_method_result_of_heap (limit : nat) (w : Wrapper) (c : Call) (st : State)
    (ev : list Event) :
  table_lookup (method_of c) method_table = Some false ->
  fst (call_method limit w c {| heap := heap st; events := ev |})
    = fst (call_method limit w c st).
Proof.
  intros Hread. unfold call_method, __getitem__, __eq__, __repr__, replacer.
  destruct (cls w), c; try discriminate Hread; simpl;
    repeat case_match; simplify_eq/=; try done.
Qed.

(** A read-only operation on a wrapper of the class that fits its raw
    container gives what [raw_view] tells from that container, and adds
    [raw_fresh] to the store. *)
Lemma read_raw_view (limit : nat) (w : Wrapper) (r : Read) (st : State) (o : RawObj) :
  read_only r = true ->
  heap st !! _d w = Some o ->
  raw_type o = wrapped_type (cls w) ->
  read limit w r st
    = (raw_view limit (heap st) w o r,
       {| heap := heap st ++ raw_fresh (heap st) o r; events := events st |}).
Proof.
  intros Hro Ho Hty.
  assert (<[_d w := o]> (heap st) = heap st) as Hsame by (by apply insert_same).
  destruct w as [k d p ps]. destruct st as [h ev]. cbn [cls _d heap events] in *.
  destruct r as [c|x]; cbn [read_only] in Hro.
  - apply bool_decide_eq_true in Hro.
    destruct k, o as [items|items]; try discriminate Hty;
      destruct c; try discriminate Hro;
      unfold read, call_method, __getitem__, __eq__, __repr__,
        raw_view, raw_fresh, stored_at;
      cbn [cls _d heap events method_of iterated values_of];
      try (destruct (installed _ _) as [mutates|] eqn:Hi; vm_compute in Hi; simplify_eq);
      unfold replacer, raw_call; cbn [cls _d heap events];
      rewrite ?Ho; cbn [dict_method list_method fst snd];
      rewrite ?Hsame, ?app_nil_r, ?length_map; try reflexivity.
    all: try (destruct (dict_lookup _ _); rewrite ?Hsame; reflexivity).
    all: try (destruct other; rewrite ?app_nil_r; reflexivity).
    + destruct other as [| | | |b|]; rewrite ?Hsame, ?app_nil_r; try reflexivity.
      destruct (h !! b) as [[]|]; rewrite ?Hsame, ?app_nil_r; reflexivity.
    + destruct key as [s|i|]; rewrite ?Hsame, ?app_nil_r; try reflexivity.
      destruct (norm_index (length items) i) as [j|];
        [destruct (items !! j)|]; rewrite ?Hsame, ?app_nil_r; reflexivity.
  - unfold read, contains, call_method, raw_view, raw_fresh.
    cbn [cls _d heap events method_of iterated].
    destruct k, o as [items|items]; try discriminate Hty;
      (destruct (installed _ _) as [mutates|] eqn:Hi; vm_compute in Hi; simplify_eq);
      unfold replacer, raw_call; cbn [cls _d heap events]; rewrite Ho;
      cbn [dict_method list_method fst snd heap]; rewrite ?Hsame, ?app_nil_r;
      destruct (find_equal _ _ _ _) as [[]|]; reflexivity.
Qed.

(** C7. Every read-only operation on a tracked container (a call of a method
    the table marks as not mutating: iteration, length, equality,
    concatenation, indexed read, [get], [keys], [repr]; or a membership
    test) leaves the trace of dirty marks as it is and changes no existing
    object of the store, and its result is determined by the store alone.
    On a wrapper of the class that fits its raw container the result is the
    one [raw_view] tells from the wrapped raw value: its length, its keys
    or items, what it holds under the key (wrapped again, with the reader
    as parent, when that is a container), its comparison with the other
    operand, its text; and only concatenation adds an object to the
    store, the new list. *)
Theorem reads_never_mark_dirty (limit : nat) (w : Wrapper) (r : Read) (st : State) :
  read_only r = true ->
  events (snd (read limit w r st)) = events st /\
  (exists fresh, heap (snd (read limit w r st)) = heap st ++ fresh) /\
  (forall ev, fst (read limit w r {| heap := heap st; events := ev |})
                = fst (read limit w r st)) /\
  (forall o, heap st !! _d w = Some o -> raw_type o = wrapped_type (cls w) ->
     fst (read limit w r st) = raw_view limit (heap st) w o r /\
     heap (snd (read limit w r st)) = heap st ++ raw_fresh (heap st) o r).
Proof.
  intros Hro.
  assert (forall o, heap st !! _d w = Some o -> raw_type o = wrapped_type (cls w) ->
     fst (read limit w r st) = raw_view limit (heap st) w o r /\
     heap (snd (read limit w r st)) = heap st ++ raw_fresh (heap st) o r) as Hview.
  { intros o Ho Hty. by rewrite (read_raw_view limit w r st o Hro Ho Hty). }
  destruct r as [c|x]; simpl in *.
  - apply bool_decide_eq_true in Hro.
    destruct (call_method_read limit w c st Hro) as [Hev Hheap].
    split_and!; [done | done | | done]. intros ev. by apply call_method_result_of_heap.
  - destruct (call_method_read limit w call_iter st eq_refl) as [Hev Hheap].
    pose proof (call_method_result_of_heap limit w call_iter st) as Hres.
    unfold contains.
    assert (forall ev, snd (call_method limit w call_iter {| heap := heap st; events := ev |})
              = {| heap := heap (snd (call_method limit w call_iter st)); events := ev |})
      as Hstate.
    { intros ev. unfold call_method, replacer. destruct (cls w); simpl;
        repeat case_match; simplify_eq/=; done. }
    split_and!.
    + destruct (call_method limit w call_iter st) as [[]]; simpl in *;
        repeat case_match; simplify_eq/=; done.
    + destruct (call_method limit w call_iter st) as [[]]; simpl in *;
        repeat case_match; simplify_eq/=; done.
    + intros ev. specialize (Hres ev eq_refl). specialize (Hstate ev).
      destruct (call_method limit w call_iter {| heap := heap st; events := ev |}) as [r1 s1].
      destruct (call_method limit w call_iter st) as [r2 s2].
      simpl in *. subst r1 s1. destruct r2; simpl; repeat case_match; simplify_eq/=; done.
    + apply Hview.
Qed.

(** *** Reading nested containers *)

Lemma dict_lookup_value (k : Key) (items : list (Key * PyVal)) (v : PyVal) :
  dict_lookup k items = Some v -> v ∈ map snd items.
Proof.
  induction items as [|[k' v'] items IH]; simpl; [done|].
  destruct (decide (k = k')); intros H.
  - injection H as ->. apply list_elem_of_here.
  - apply list_elem_of_further. by apply IH.
Qed.

(** What the raw [__getitem__] returns is one of the stored values. *)
Lemma raw_getitem_stored (limit : nat) (key : Key) (h : list RawObj) (a : addr) (v : PyVal) :
  fst (raw_call limit (call_getitem key) h a) = Value v ->
  exists o, h !! a = Some o /\ v ∈ values_of o.
Proof.
  unfold raw_call. destruct (h !! a) as [[items|items]|] eqn:Ha; [| |done].
  - simpl. destruct (dict_lookup key items) as [v'|] eqn:Hk; [|done].
    simpl. intros [= ->]. eexists. split; [done|]. by eapply dict_lookup_value.
  - simpl. destruct key as [s|i|]; [done| |done].
    destruct (norm_index (length items) i) as [j|]; [|done].
    destruct (items !! j) as [v'|] eqn:Hj; [|done].
    simpl. intros [= ->]. eexists. split; [done|]. by eapply list_elem_of_lookup_2.
Qed.

(** [try_wrap] either builds a wrapper whose parent is the reader, or
    returns the value as it is. *)
Lemma try_wrap_cases (h : list RawObj) (self : Wrapper) (value : PyVal) :
  (exists a o c', value = VRaw a /\ h !! a = Some o /\
     try_wrap h self value
       = VNested {| cls := c'; _d := a; __parent__ := Some self; _parents := [] |} /\
     wrapped_type c' = raw_type o) \/
  ((forall a, value = VRaw a -> h !! a = None) /\ try_wrap h self value = value).
Proof.
  unfold try_wrap, try_wrap_in, MUTATION_WRAPPERS, isinstance.
  destruct value as [| | | |a|w]; try (right; split; [intros; discriminate | done]).
  destruct (h !! a) as [[items|items]|] eqn:Ha.
  - left. exists a, (RDict items), NestedMutationDict. done.
  - left. exists a, (RList items), NestedMutationList. done.
  - right. split; [|done]. by intros ? [= <-].
Qed.

(** An indexed read below [root] stays below [root]. *)
Lemma getitem_rooted (limit : nat) (st : State) (root w child : Wrapper) (key : Key) :
  wrappers_rooted root (heap st) ->
  root_of w = root ->
  fst (__getitem__ limit w key st) = Value (VNested child) ->
  root_of child = root.
Proof.
  intros Hrooted Hw. unfold __getitem__.
  pose proof (raw_getitem_stored limit key (heap st) (_d w)) as Hstored.
  pose proof (getitem_state limit w key st) as Hst. unfold __getitem__ in Hst.
  destruct (raw_call limit (call_getitem key) (heap st) (_d w)) as [value h].
  destruct value as [v| | | |]; simpl in *; try done.
  assert (h = heap st) as -> by (by rewrite <- Hst).
  destruct (Hstored v eq_refl) as (o & Ho & Hv).
  intros [= Hwrap].
  destruct (try_wrap_cases (heap st) w v) as
    [(a & o' & c' & -> & _ & Heq & _) | [_ Heq]]; rewrite Heq in Hwrap.
  - injection Hwrap as <-. simpl. done.
  - subst v. by eapply Hrooted.
Qed.

Lemma follow_rooted (limit : nat) (st : State) (root : Wrapper) (path : list Key) :
  wrappers_rooted root (heap st) ->
  forall w w', root_of w = root -> follow limit st w path = Some w' -> root_of w' = root.
Proof.
  intros Hrooted. induction path as [|key rest IH]; intros w w' Hw; simpl.
  - by intros [= <-].
  - destruct (__getitem__ limit w key st) as [value st'] eqn:Hget.
    destruct value as [[| | | | |child]| | | |]; try done.
    apply IH. eapply getitem_rooted; [done | done |]. by rewrite Hget.
Qed.

(** *** Mutating calls *)

(** A call of a method the table marks as mutating, on a wrapper below a
    tracked root: one dirty mark when the raw method returns, none when it
    raises. *)
Lemma mutating_call_events (limit : nat) (st : State) (root w : Wrapper) (parent : Rec)
    (key : string) (c : Call) :
  tracked_root root parent key ->
  root_of w = root ->
  table_lookup (method_of c) method_table = Some true ->
  events (snd (call_method limit w c st)) =
    if raised (fst (call_method limit w c st)) then events st
    else events st ++ [FlagModified parent key].
Proof.
  intros [_ Hparents] <- Hmut.
  assert (forall c', events (snd (replacer limit true w c' st)) =
            if raised (fst (replacer limit true w c' st)) then events st
            else events st ++ [FlagModified parent key]) as Hrep.
  { intros c'. rewrite replacer_events, Hparents. simpl.
    by destruct (raised (fst (replacer limit true w c' st))). }
  unfold call_method, setdefault.
  destruct (cls w), c; try discriminate Hmut; try apply Hrep;
    (destruct (installed _ _) as [mutates|] eqn:Hi; [|done];
     apply installed_flag in Hi; rewrite Hmut in Hi; injection Hi as <-; apply Hrep).
Qed.

(** X30. Indexed reads that meet only plain containers stay below the
    reader: each value read is wrapped with the reader as parent, so the
    wrapper reached has the root of the reader at the top of its parent
    chain. *)
Lemma follow_plain_rooted (limit : nat) (st : State) (path : list Key) :
  forall w w',
  plain_path limit st w path = true ->
  follow limit st w path = Some w' ->
  root_of w' = root_of w.
Proof.
  induction path as [|key rest IH]; intros w w'; simpl.
  - by intros _ [= <-].
  - pose proof (getitem_state limit w key st) as Hst.
    unfold __getitem__ in *.
    destruct (raw_call limit (call_getitem key) (heap st) (_d w)) as [value h] eqn:Hraw.
    destruct value as [[| | | |a|]| | | |]; try done.
    simpl in Hst. assert (h = heap st) as -> by (by rewrite <- Hst).
    destruct (try_wrap_cases (heap st) w (VRaw a)) as
      [(a' & o & c' & _ & _ & Heq & _) | [_ Heq]]; rewrite Heq; [|done].
    intros Hplain Hfollow. by rewrite (IH _ w' Hplain Hfollow).
Qed.

(** C6 (amended). For a root bound to one record attribute and a nested
    container reached from it by indexed reads whose wrapper has that root
    at the top of its parent chain, every call of a mutating method that
    the raw container carries out adds exactly one dirty mark, the one of
    the root's attribute, and nothing else to the trace: the attribute is
    not assigned again. *)
Theorem nested_mutation_marks_root_once (limit : nat) (st : State) (root w : Wrapper)
    (parent : Rec) (key : string) (path : list Key) (c : Call) :
  tracked_root root parent key ->
  follow limit st root path = Some w ->
  root_of w = root ->
  table_lookup (method_of c) method_table = Some true ->
  raised (fst (call_method limit w c st)) = false ->
  events (snd (call_method limit w c st)) = events st ++ [FlagModified parent key].
Proof.
  intros Hroot Hpath Hw Hmut Hreturns.
  rewrite (mutating_call_events limit st root w parent key c Hroot Hw Hmut).
  by rewrite Hreturns.
Qed.

(** C6 as stated fails.  After [record7.data.update(record8.data)] the
    column of record 7 holds, under ["a"], the wrapper that [update] read
    out of the column of record 8; [record7.data["a"]] returns that wrapper
    as it is, and an [append] through it marks record 8 and not record 7. *)
Lemma foreign_wrapper_marks_other_record :
  tracked_root record7_root 7%nat "data" /\
  follow 10 merged_state record7_root [KStr "a"] = Some foreign_child /\
  table_lookup (method_of (call_append (VInt 3))) method_table = Some true /\
  raised (fst (call_method 10 foreign_child (call_append (VInt 3)) merged_state)) = false /\
  events (snd (call_method 10 foreign_child (call_append (VInt 3)) merged_state))
    = events merged_state ++ [FlagModified 8%nat "data"] /\
  events (snd (call_method 10 foreign_child (call_append (VInt 3)) merged_state))
    <> events merged_state ++ [FlagModified 7%nat "data"].
Proof.
  split_and!; try reflexivity; try (split; reflexivity).
  vm_compute. discriminate.
Qed.

(** *** [get] against an indexed read *)

(** C9. On a mapping wrapper whose value at [key] is a plain [dict] or
    [list], [get(key)] returns that raw container itself: not a wrapper,
    so nothing carries a parent pointer, and no method called on what [get]
    returned adds a dirty mark.  The indexed read of the same key returns a
    wrapper around the same container whose parent is the mapping wrapper. *)
Theorem get_returns_unwrapped (limit : nat) (w : Wrapper) (key : Key) (default : PyVal)
    (st : State) (items : list (Key * PyVal)) (a : addr) (o : RawObj) :
  cls w = NestedMutationDict ->
  heap st !! _d w = Some (RDict items) ->
  dict_lookup key items = Some (VRaw a) ->
  heap st !! a = Some o ->
  call_method limit w (call_get key default) st = (Value (VRaw a), st) /\
  (forall c st', events (snd (py_call limit (VRaw a) c st')) = events st') /\
  exists child,
    call_method limit w (call_getitem key) st = (Value (VNested child), st) /\
    __parent__ child = Some w /\ _d child = a.
Proof.
  intros Hcls Hd Hk Ha. split_and!.
  - unfold call_method. rewrite Hcls. simpl. unfold replacer, raw_call.
    rewrite Hd. simpl. rewrite Hk. simpl.
    rewrite (insert_same _ _ _ Hd). by rewrite state_eta.
  - intros c st'. unfold py_call.
    by destruct (raw_call limit c (heap st') a) as [value h].
  - unfold call_method. rewrite Hcls. unfold __getitem__, raw_call.
    rewrite Hd. simpl. rewrite Hk. simpl.
    rewrite (insert_same _ _ _ Hd), state_eta.
    destruct (try_wrap_cases (heap st) w (VRaw a)) as
      [(a' & o' & c' & [= <-] & _ & Heq & _) | [Hnone _]].
    + rewrite Heq. eexists. split_and!; done.
    + rewrite (Hnone a eq_refl) in Ha. discriminate Ha.
Qed.

(** *** [wrap_as_nested] *)

(** A call on a wrapper leaves every container other than its own alone. *)
Lemma call_method_other (limit : nat) (w : Wrapper) (c : Call) (st : State)
    (a : addr) (o : RawObj) :
  _d w <> a ->
  heap st !! a = Some o ->
  heap (snd (call_method limit w c st)) !! a = Some o.
Proof.
  intros Hne Ha.
  assert (forall mutates c', heap (snd (replacer limit mutates w c' st)) !! a = Some o)
    as Hrep.
  { intros mutates c'. rewrite replacer_heap. by apply raw_call_other. }
  unfold call_method, setdefault.
  destruct (cls w), c;
    try apply Hrep;
    try (by rewrite getitem_state);
    try (unfold __eq__; done);
    try (unfold __repr__; by case_match);
    (destruct (installed _ _) as [mutates|]; [apply Hrep | done]).
Qed.

Lemma run_calls_other (limit : nat) (w : Wrapper) (calls : list Call) (a : addr)
    (o : RawObj) :
  _d w <> a ->
  forall st, heap st !! a = Some o -> heap (run_calls limit w calls st) !! a = Some o.
Proof.
  intros Hne. induction calls as [|c rest IH]; intros st Ha; simpl; [done|].
  apply IH. by apply call_method_other.
Qed.

(** [wrap_as_nested] on a raw container: the copy gets the next free
    address, and the wrapper's class is the one registered for its type. *)
Lemma wrap_as_nested_raw (key : string) (a : addr) (parent : Rec) (h : list RawObj)
    (o : RawObj) :
  h !! a = Some o ->
  exists c0,
    wrapped_type c0 = raw_type o /\
    wrap_as_nested key (VRaw a) parent h =
      (VNested {| cls := c0; _d := length h; __parent__ := None;
                  _parents := [(parent, key)] |}, h ++ [o]).
Proof.
  intros Ha. unfold wrap_as_nested, wrap_as_nested_in, MUTATION_WRAPPERS, isinstance.
  rewrite Ha. destruct o as [items|items]; simpl.
  - by exists NestedMutationDict.
  - by exists NestedMutationList.
Qed.

(** C10. [wrap_as_nested] on a raw [dict] or [list] returns a wrapper around
    a new container with the same items (the nested containers are the same
    objects), and whatever methods are then called on that wrapper, the
    container that was passed in keeps its items. *)
Theorem wrap_as_nested_shallow_copy (limit : nat) (key : string) (a : addr) (parent : Rec)
    (h : list RawObj) (o : RawObj) :
  h !! a = Some o ->
  exists w,
    wrap_as_nested key (VRaw a) parent h = (VNested w, h ++ [o]) /\
    _d w <> a /\
    (h ++ [o]) !! _d w = Some o /\
    tracked_root w parent key /\
    forall calls ev,
      heap (run_calls limit w calls {| heap := h ++ [o]; events := ev |}) !! a = Some o.
Proof.
  intros Ha. pose proof (lookup_lt_Some _ _ _ Ha) as Hlt.
  destruct (wrap_as_nested_raw key a parent h o Ha) as (c0 & _ & Hwrap).
  eexists. split; [exact Hwrap|]. simpl. split_and!.
  - lia.
  - by rewrite lookup_app_r, Nat.sub_diag by lia.
  - done.
  - intros calls ev. apply run_calls_other; simpl; [lia|].
    by apply lookup_app_l_Some.
Qed.

(** *** Projection to plain data and back *)

Lemma well_nested_unfold (n : nat) (h : list RawObj) (w : Wrapper) :
  well_nested (S n) h w = true ->
  (cls w = NestedMutationDict /\ exists items,
     h !! _d w = Some (RDict items) /\ NoDup (map fst items) /\
     nested_items n h (map snd items)) \/
  (cls w = NestedMutationList /\ exists items,
     h !! _d w = Some (RList items) /\ nested_items n h items).
Proof.
  assert (forall vs,
            forallb (fun v => match is_wrapper v with
                              | Some x => well_nested n h x
                              | None => true
                              end) vs = true -> nested_items n h vs) as Hitems.
  { intros vs Hvs. apply Is_true_true, forallb_True in Hvs.
    eapply Forall_impl; [exact Hvs|]. intros v Hv x ->. simpl in Hv.
    by apply Is_true_true. }
  simpl. destruct (cls w), (h !! _d w) as [[items|items]|]; try done; intros H.
  - left. split; [done|]. exists items. apply andb_true_iff in H as [Hnd Hall].
    apply bool_decide_eq_true in Hnd. split_and!; [done | done | by apply Hitems].
  - right. split; [done|]. exists items. split; [done | by apply Hitems].
Qed.

(** Allocation does not disturb what is well nested. *)
Lemma well_nested_grow (n : nat) :
  forall (h more : list RawObj) (w : Wrapper),
  well_nested n h w = true -> well_nested n (h ++ more) w = true.
Proof.
  induction n as [|n IH]; intros h more w; [done|]. simpl.
  assert (forall vs,
            forallb (fun v => match is_wrapper v with
                              | Some x => well_nested n h x
                              | None => true
                              end) vs = true ->
            forallb (fun v => match is_wrapper v with
                              | Some x => well_nested n (h ++ more) x
                              | None => true
                              end) vs = true) as Hitems.
  { intros vs Hvs. apply List.forallb_forall. intros v Hv.
    pose proof (proj1 (List.forallb_forall _ _) Hvs v Hv) as Hok.
    simpl in Hok. revert Hok. destruct (is_wrapper v); [apply IH | done]. }
  destruct (cls w), (h !! _d w) as [[items|items]|] eqn:Hd; try done;
    rewrite (lookup_app_l_Some _ _ _ _ Hd); intros H.
  - apply andb_true_iff in H as [Hnd Hall]. apply andb_true_iff. split; [done|].
    by apply Hitems.
  - by apply Hitems.
Qed.

Lemma nested_items_grow (n : nat) (h more : list RawObj) (vs : list PyVal) :
  nested_items n h vs -> nested_items n (h ++ more) vs.
Proof.
  unfold nested_items. intros H. eapply Forall_impl; [exact H|].
  intros v Hv x Hx. by apply well_nested_grow, Hv.
Qed.

(** A value that is not a wrapper compares equal to itself. *)
Lemma rich_compare_same (k : nat) (h : list RawObj) (v : PyVal) :
  is_wrapper v = None -> rich_compare_bool (S k) h v v = Some true.
Proof.
  unfold rich_compare_bool. destruct v as [|b|z|s|a|w]; simpl; try done.
  - by destruct b.
  - intros _. by rewrite Z.eqb_refl.
  - intros _. by rewrite String.eqb_refl.
  - intros _. by rewrite Nat.eqb_refl.
Qed.

(** Both operands of [dict_equal] have the same keys, and the values under
    one key compare equal. *)
Lemma dict_items_equal_found (cmp : PyVal -> PyVal -> option bool)
    (xs ys : list (Key * PyVal)) :
  (forall k av, (k, av) ∈ xs ->
     exists bv, dict_lookup k ys = Some bv /\ cmp av bv = Some true) ->
  dict_items_equal cmp xs ys = Some true.
Proof.
  induction xs as [|[k av] xs IH]; intros Hall; simpl; [done|].
  destruct (Hall k av) as (bv & -> & ->); [apply list_elem_of_here|].
  apply IH. intros k' av' Hin. apply Hall. by apply list_elem_of_further.
Qed.

Lemma dict_items_equal_zip (cmp : PyVal -> PyVal -> option bool)
    (items : list (Key * PyVal)) :
  forall vs,
  NoDup (map fst items) ->
  Forall2 (fun v v' => cmp v v' = Some true) (map snd items) vs ->
  forall k av, (k, av) ∈ items ->
    exists bv, dict_lookup k (zip (map fst items) vs) = Some bv /\ cmp av bv = Some true.
Proof.
  induction items as [|[k0 v0] items IH]; intros vs Hnd Hall k av Hin.
  - by apply elem_of_nil in Hin.
  - simpl in Hall. apply Forall2_cons_inv_l in Hall as (v0' & vs' & Hhead & Htail & ->).
    simpl in Hnd. apply NoDup_cons in Hnd as [Hfresh Hnd]. simpl.
    apply elem_of_cons in Hin as [[= -> ->] | Hin].
    + rewrite decide_True by done. by exists v0'.
    + rewrite decide_False.
      * by apply IH.
      * intros ->. apply Hfresh.
        apply (list_elem_of_fmap_2 fst) in Hin. exact Hin.
Qed.

Lemma list_items_equal_all (cmp : PyVal -> PyVal -> option bool) (xs ys : list PyVal) :
  Forall2 (fun v v' => cmp v v' = Some true) xs ys ->
  list_items_equal cmp xs ys = Some true.
Proof.
  induction 1 as [|x y xs ys Hxy _ IH]; simpl; [done|]. by rewrite Hxy.
Qed.

(** One step of [==]. *)
Lemma py_eq_raw_dicts (k : nat) (h : list RawObj) (a b : addr)
    (xs ys : list (Key * PyVal)) :
  h !! a = Some (RDict xs) ->
  h !! b = Some (RDict ys) ->
  py_eq (S k) h (VRaw a) (VRaw b) = dict_equal (rich_compare_bool k h) xs ys.
Proof. intros Ha Hb. simpl. by rewrite Ha, Hb. Qed.

Lemma py_eq_raw_lists (k : nat) (h : list RawObj) (a b : addr) (xs ys : list PyVal) :
  h !! a = Some (RList xs) ->
  h !! b = Some (RList ys) ->
  py_eq (S k) h (VRaw a) (VRaw b) = list_equal (rich_compare_bool k h) xs ys.
Proof. intros Ha Hb. simpl. by rewrite Ha, Hb. Qed.

Lemma py_eq_wrapper_left (k : nat) (h : list RawObj) (w : Wrapper) (y : PyVal) :
  py_eq (S k) h (VNested w) y = py_eq k h (VRaw (_d w)) y.
Proof. done. Qed.

Lemma py_eq_wrapper_right (k : nat) (h : list RawObj) (a : addr) (w : Wrapper) :
  py_eq (S k) h (VRaw a) (VNested w) = py_eq k h (VRaw (_d w)) (VRaw a).
Proof. done. Qed.

(** The comprehension of [__json__] over the items of a container, given
    that [__json__] does its work on wrappers nested to depth [n]: every
    item compares equal to what it is projected to. *)
Lemma project_values_equal (n f : nat) :
  (forall h x, well_nested n h x = true ->
     exists a new,
       __json__ f h x = inr (a, h ++ new) /\
       forall more k, (2 * n <= k)%nat ->
         py_eq k (h ++ new ++ more) (VRaw (_d x)) (VRaw a) = Some true) ->
  forall vs h, nested_items n h vs ->
  exists vs' new,
    project_values (__json__ f) h vs = inr (vs', h ++ new) /\
    forall more k, (2 * n + 1 <= k)%nat ->
      Forall2 (fun v v' => rich_compare_bool k (h ++ new ++ more) v v' = Some true) vs vs'.
Proof.
  intros Hjson. induction vs as [|v vs IH]; intros h Hn.
  - exists [], []. simpl. rewrite app_nil_r. split; [done|]. intros. constructor.
  - apply Forall_cons in Hn as [Hv Hvs].
    destruct (is_wrapper v) as [x|] eqn:Hw.
    + destruct v; try discriminate Hw. injection Hw as ->.
      destruct (Hjson h x (Hv x eq_refl)) as (a & new1 & Hproj & Heq).
      destruct (IH (h ++ new1) (nested_items_grow _ _ _ _ Hvs)) as (vs' & new2 & Hrest & Hall).
      exists (VRaw a :: vs'), (new1 ++ new2). simpl. rewrite Hproj, Hrest.
      split; [by rewrite app_assoc|].
      intros more k Hk. constructor.
      * unfold rich_compare_bool. simpl identical. cbv iota.
        destruct k as [|k]; [lia|]. rewrite py_eq_wrapper_left.
        rewrite <- (app_assoc new1 new2 more). apply Heq. lia.
      * rewrite <- (app_assoc new1 new2 more), (app_assoc h new1 (new2 ++ more)).
        by apply Hall.
    + destruct (IH h Hvs) as (vs' & new & Hrest & Hall).
      exists (v :: vs'), new.
      split.
      * destruct v; try discriminate Hw; simpl; by rewrite Hrest.
      * intros more k Hk. constructor; [|by apply Hall].
        destruct k as [|k]; [lia|]. by apply rich_compare_same.
Qed.

(** [__json__] of a well nested wrapper returns a new container of the
    wrapped type, and the wrapped container compares equal to it. *)
Lemma to_json_equal (n : nat) :
  forall f h x, (n <= f)%nat -> well_nested n h x = true ->
  exists a new o,
    __json__ f h x = inr (a, h ++ new) /\
    (h ++ new) !! a = Some o /\
    raw_type o = wrapped_type (cls x) /\
    forall more k, (2 * n <= k)%nat ->
      py_eq k (h ++ new ++ more) (VRaw (_d x)) (VRaw a) = Some true.
Proof.
  induction n as [|n IH]; intros f h x Hf Hwn; [done|].
  destruct f as [|f]; [lia|].
  assert (forall h x, well_nested n h x = true ->
            exists a new,
              __json__ f h x = inr (a, h ++ new) /\
              forall more k, (2 * n <= k)%nat ->
                py_eq k (h ++ new ++ more) (VRaw (_d x)) (VRaw a) = Some true) as Hjson.
  { intros h0 x0 H0. destruct (IH f h0 x0) as (a & new & o & H1 & _ & _ & H2); [lia|done|].
    by exists a, new. }
  apply well_nested_unfold in Hwn as
    [(Hcls & items & Hd & Hnd & Hitems) | (Hcls & items & Hd & Hitems)].
  - destruct (project_values_equal n f Hjson (map snd items) h Hitems)
      as (vs' & new & Hproj & Hall).
    exists (length (h ++ new)), (new ++ [RDict (zip (map fst items) vs')]),
           (RDict (zip (map fst items) vs')).
    simpl. rewrite Hcls, Hd, Hproj. split_and!.
    + by rewrite app_assoc.
    + rewrite app_assoc. by apply list_lookup_middle.
    + done.
    + intros more k Hk. destruct k as [|k]; [lia|].
      pose proof (Hall ([RDict (zip (map fst items) vs')] ++ more) k ltac:(lia)) as HF.
      rewrite <- (app_assoc new _ more).
      rewrite (py_eq_raw_dicts k _ (_d x) (length (h ++ new)) items
                 (zip (map fst items) vs')).
      * unfold dict_equal.
        assert (length (zip (map fst items) vs') = length items) as ->.
        { apply Forall2_length in HF. rewrite length_zip_with.
          rewrite List.length_map in HF |- *. lia. }
        rewrite Nat.eqb_refl. apply dict_items_equal_found.
        by apply dict_items_equal_zip.
      * by apply lookup_app_l_Some.
      * rewrite (app_assoc h new). by apply list_lookup_middle.
  - destruct (project_values_equal n f Hjson items h Hitems)
      as (vs' & new & Hproj & Hall).
    exists (length (h ++ new)), (new ++ [RList vs']), (RList vs').
    simpl. rewrite Hcls, Hd, Hproj. split_and!.
    + by rewrite app_assoc.
    + rewrite app_assoc. by apply list_lookup_middle.
    + done.
    + intros more k Hk. destruct k as [|k]; [lia|].
      pose proof (Hall ([RList vs'] ++ more) k ltac:(lia)) as HF.
      rewrite <- (app_assoc new _ more).
      rewrite (py_eq_raw_lists k _ (_d x) (length (h ++ new)) items vs').
      * unfold list_equal. rewrite (Forall2_length _ _ _ HF), Nat.eqb_refl.
        by apply list_items_equal_all.
      * by apply lookup_app_l_Some.
      * rewrite (app_assoc h new). by apply list_lookup_middle.
Qed.

(** Two addresses that hold the same container are interchangeable on the
    right of [==] against a container of that type. *)
Lemma py_eq_same_contents (k : nat) (h : list RawObj) (d b b' : addr) (od o : RawObj) :
  h !! d = Some od ->
  h !! b = Some o ->
  h !! b' = Some o ->
  raw_type od = raw_type o ->
  py_eq k h (VRaw d) (VRaw b') = py_eq k h (VRaw d) (VRaw b).
Proof.
  intros Hd Hb Hb' Hty. destruct k as [|k]; [done|].
  destruct od as [xs|xs], o as [ys|ys]; try discriminate Hty.
  - by rewrite !(py_eq_raw_dicts k h d _ xs ys).
  - by rewrite !(py_eq_raw_lists k h d _ xs ys).
Qed.

Lemma well_nested_holds (n : nat) (h : list RawObj) (w : Wrapper) :
  well_nested n h w = true ->
  exists od, h !! _d w = Some od /\ raw_type od = wrapped_type (cls w).
Proof.
  destruct n as [|n]; [done|]. intros H.
  apply well_nested_unfold in H as [(-> & items & Hd & _) | (-> & items & Hd & _)];
    by eexists.
Qed.

(** C8. For a tracked container whose class matches the container it wraps
    and that is nested to a depth the recursion limit allows, [__json__]
    returns plain data, and wrapping that data again (by [coerce] of the
    same class, or by [wrap_as_nested]) gives a wrapper that [==] the
    original. *)
Theorem json_round_trip (limit n : nat) (h : list RawObj) (w : Wrapper) :
  well_nested n h w = true ->
  (2 * n + 1 <= limit)%nat ->
  exists a h',
    __json__ limit h w = inr (a, h') /\
    (forall key ev, exists w',
        coerce (cls w) key (VRaw a) h' = Value (VNested w') /\
        fst (__eq__ limit w' (VNested w) {| heap := h'; events := ev |})
          = Value (VBool true)) /\
    (forall key parent ev, exists w' h'',
        wrap_as_nested key (VRaw a) parent h' = (VNested w', h'') /\
        fst (__eq__ limit w' (VNested w) {| heap := h''; events := ev |})
          = Value (VBool true)).
Proof.
  intros Hwn Hlimit.
  destruct (to_json_equal n limit h w) as (a & new & o & Hjson & Ha & Hty & Heq);
    [lia | done |].
  destruct (well_nested_holds n h w Hwn) as (od & Hd & Hod).
  destruct limit as [|l]; [lia|].
  exists a, (h ++ new). split_and!; [done | |].
  - intros key ev. eexists. split.
    + unfold coerce, isinstance. rewrite Ha, Hty.
      rewrite bool_decide_eq_true_2 by done. reflexivity.
    + unfold __eq__. simpl heap. simpl _d. rewrite py_eq_wrapper_right.
      rewrite <- (app_nil_r new), (Heq [] l) by lia. done.
  - intros key parent ev.
    destruct (wrap_as_nested_raw key a parent (h ++ new) o Ha) as (c0 & _ & Hwrap).
    eexists _, _. split; [exact Hwrap|].
    unfold __eq__. simpl heap. simpl _d. rewrite py_eq_wrapper_right.
    rewrite (py_eq_same_contents l _ (_d w) a (length (h ++ new)) od o).
    + rewrite <- (app_assoc h new [o]), (Heq [o] l) by lia. done.
    + by apply lookup_app_l_Some, lookup_app_l_Some.
    + by apply lookup_app_l_Some.
    + by apply list_lookup_middle.
    + congruence.
Qed.

(** ** The scenarios *)

Lemma demo_heap_plain (root : Wrapper) : wrappers_rooted root demo_heap.
Proof.
  intros a o w Ha Hin.
  destruct a as [|[|[|a]]]; simpl in Ha; try discriminate Ha;
    injection Ha as <-; simpl in Hin;
    repeat (apply elem_of_cons in Hin as [Hin|Hin]; [discriminate Hin|]);
    by apply elem_of_nil in Hin.
Defined.

(** [root = {"a": [1, 2]}], then [root["a"].append(3)]. *)
Lemma nested_mutation_marks_root_once_witness :
  events (snd (call_method 10 demo_child (call_append (VInt 3)) demo_state))
    = [FlagModified 7%nat "data"].
Proof.
  apply (nested_mutation_marks_root_once 10 demo_state demo_root demo_child 7%nat "data"
           [KStr "a"] (call_append (VInt 3)));
    [split; reflexivity | reflexivity | reflexivity | reflexivity | reflexivity].
Defined.

(** [root["a"].pop()] on an empty list raises [IndexError] and marks
    nothing. *)
Example pop_from_empty_marks_nothing :
  call_method 10 empty_child (call_pop None None) {| heap := empty_heap; events := [] |}
    = (Raises IndexError, {| heap := empty_heap; events := [] |}).
Proof. reflexivity. Qed.

(** Reading [root["a"][0]]: the result is the first item of the raw list,
    and nothing is added to the store. *)
Lemma reads_never_mark_dirty_witness :
  events (snd (read 10 demo_child (read_call (call_getitem (KInt 0))) demo_state))
    = events demo_state /\
  (exists fresh,
     heap (snd (read 10 demo_child (read_call (call_getitem (KInt 0))) demo_state))
       = heap demo_state ++ fresh) /\
  (forall ev,
     fst (read 10 demo_child (read_call (call_getitem (KInt 0)))
            {| heap := heap demo_state; events := ev |})
       = fst (read 10 demo_child (read_call (call_getitem (KInt 0))) demo_state)) /\
  fst (read 10 demo_child (read_call (call_getitem (KInt 0))) demo_state)
    = Value (VInt 1) /\
  heap (snd (read 10 demo_child (read_call (call_getitem (KInt 0))) demo_state))
    = heap demo_state.
Proof.
  destruct (reads_never_mark_dirty 10 demo_child (read_call (call_getitem (KInt 0)))
              demo_state eq_refl) as (Hevents & Hheap & Hresult & Hview).
  destruct (Hview (RList [VInt 1; VInt 2]) eq_refl eq_refl) as [Hvalue Hfresh].
  split_and!; [exact Hevents | exact Hheap | exact Hresult | exact Hvalue | exact Hfresh].
Defined.

Lemma json_round_trip_witness :
  exists a h',
    __json__ 10 kept_heap kept_root = inr (a, h') /\
    (forall key ev, exists w',
        coerce (cls kept_root) key (VRaw a) h' = Value (VNested w') /\
        fst (__eq__ 10 w' (VNested kept_root) {| heap := h'; events := ev |})
          = Value (VBool true)) /\
    (forall key parent ev, exists w' h'',
        wrap_as_nested key (VRaw a) parent h' = (VNested w', h'') /\
        fst (__eq__ 10 w' (VNested kept_root) {| heap := h''; events := ev |})
          = Value (VBool true)).
Proof.
  apply (json_round_trip 10 2 kept_heap kept_root); [reflexivity | lia].
Defined.

Lemma get_returns_unwrapped_witness :
  call_method 10 demo_root (call_get (KStr "a") VNone) demo_state
    = (Value (VRaw 0%nat), demo_state) /\
  (forall c st', events (snd (py_call 10 (VRaw 0%nat) c st')) = events st') /\
  exists child,
    call_method 10 demo_root (call_getitem (KStr "a")) demo_state
      = (Value (VNested child), demo_state) /\
    __parent__ child = Some demo_root /\ _d child = 0%nat.
Proof.
  apply (get_returns_unwrapped 10 demo_root (KStr "a") VNone demo_state
           [(KStr "a", VRaw 0%nat)] 0%nat (RList [VInt 1; VInt 2]));
    reflexivity.
Defined.

Lemma wrap_as_nested_shallow_copy_witness :
  exists w,
    wrap_as_nested "data" (VRaw 1%nat) 7%nat (take 2 demo_heap)
      = (VNested w, take 2 demo_heap ++ [RDict [(KStr "a", VRaw 0%nat)]]) /\
    _d w <> 1%nat /\
    (take 2 demo_heap ++ [RDict [(KStr "a", VRaw 0%nat)]]) !! _d w
      = Some (RDict [(KStr "a", VRaw 0%nat)]) /\
    tracked_root w 7%nat "data" /\
    forall calls ev,
      heap (run_calls 10 w calls
              {| heap := take 2 demo_heap ++ [RDict [(KStr "a", VRaw 0%nat)]];
                 events := ev |}) !! 1%nat
        = Some (RDict [(KStr "a", VRaw 0%nat)]).
Proof.
  apply (wrap_as_nested_shallow_copy 10 "data" 1%nat 7%nat (take 2 demo_heap)
           (RDict [(KStr "a", VRaw 0%nat)])).
  reflexivity.
Defined.

(** ** Further properties of the wrappers *)

Lemma dict_store_absent (k : Key) (v : PyVal) (items : list (Key * PyVal)) :
  dict_lookup k items = None -> dict_store k v items = items ++ [(k, v)].
Proof.
  induction items as [|[k' v'] items IH]; simpl; [done|].
  destruct (decide (k = k')); [done|]. intros H. by rewrite IH.
Qed.

Lemma dict_lookup_store_eq (k : Key) (v : PyVal) (items : list (Key * PyVal)) :
  dict_lookup k (dict_store k v items) = Some v.
Proof.
  induction items as [|[k' v'] items IH]; simpl.
  - by rewrite decide_True.
  - destruct (decide (k = k')) as [->|Hne]; simpl.
    + by rewrite decide_True.
    + by rewrite decide_False.
Qed.

Lemma dict_lookup_store_ne (k k' : Key) (v : PyVal) (items : list (Key * PyVal)) :
  k <> k' -> dict_lookup k' (dict_store k v items) = dict_lookup k' items.
Proof.
  intros Hne. induction items as [|[k0 v0] items IH]; simpl.
  - rewrite decide_False; [done | congruence].
  - destruct (decide (k = k0)) as [->|Hne0]; simpl.
    + destruct (decide (k' = k0)); [congruence | done].
    + destruct (decide (k' = k0)); [done | exact IH].
Qed.

(** The raw call on a [dict], and on a [list], spelled out. *)
Lemma raw_call_dict (limit : nat) (c : Call) (h : list RawObj) (a : addr)
    (items : list (Key * PyVal)) :
  h !! a = Some (RDict items) ->
  raw_call limit c h a =
    (fst (dict_method limit c h items),
     <[a := RDict (snd (dict_method limit c h items))]> h).
Proof.
  intros Ha. unfold raw_call. rewrite Ha. by destruct (dict_method limit c h items).
Qed.

Lemma raw_call_list (limit : nat) (c : Call) (h : list RawObj) (a : addr)
    (items : list PyVal) :
  h !! a = Some (RList items) ->
  raw_call limit c h a =
    (fst (fst (list_method limit c h items)),
     <[a := RList (snd (fst (list_method limit c h items)))]> h
       ++ snd (list_method limit c h items)).
Proof.
  intros Ha. unfold raw_call. rewrite Ha.
  by destruct (list_method limit c h items) as [[value items'] fresh].
Qed.

(** What any call adds to the trace: nothing, or one mark per owner of the
    root of the chain. *)
Lemma call_method_events (limit : nat) (w : Wrapper) (c : Call) (st : State) :
  events (snd (call_method limit w c st)) = events st \/
  events (snd (call_method limit w c st)) =
    events st ++ map (fun pk => FlagModified (fst pk) (snd pk)) (_parents (root_of w)).
Proof.
  assert (forall mutates c',
            events (snd (replacer limit mutates w c' st)) = events st \/
            events (snd (replacer limit mutates w c' st)) =
              events st ++ map (fun pk => FlagModified (fst pk) (snd pk))
                               (_parents (root_of w))) as Hrep.
  { intros mutates c'. rewrite replacer_events.
    destruct (mutates && negb _); [by right | by left]. }
  unfold call_method, setdefault.
  destruct (cls w), c;
    try apply Hrep;
    try (left; by rewrite getitem_state);
    try (left; unfold __eq__; done);
    try (left; unfold __repr__; by case_match);
    (destruct (installed _ _) as [mutates|]; [apply Hrep | by left]).
Qed.

(** X7. [setdefault] with a key that is absent and a plain [dict] or [list]
    as default stores a wrapper around that very container whose parent is
    the mapping wrapper, returns it and marks the root's attribute once.
    The container is tracked from then on: a mutating call on the returned
    wrapper marks the root again, and indexed reads keep finding wrappers
    below the root. *)
Theorem setdefault_tracks_new_container (limit : nat) (st : State) (root w : Wrapper)
    (parent : Rec) (attr : string) (key : Key) (a : addr) (o : RawObj)
    (items : list (Key * PyVal)) :
  tracked_root root parent attr ->
  root_of w = root ->
  cls w = NestedMutationDict ->
  heap st !! _d w = Some (RDict items) ->
  dict_lookup key items = None ->
  heap st !! a = Some o ->
  exists child,
    let r := call_method limit w (call_setdefault key (VRaw a)) st in
    fst r = Value (VNested child) /\
    __parent__ child = Some w /\ _d child = a /\
    heap (snd r) = <[_d w := RDict (items ++ [(key, VNested child)])]> (heap st) /\
    events (snd r) = events st ++ [FlagModified parent attr] /\
    (wrappers_rooted root (heap st) -> wrappers_rooted root (heap (snd r))) /\
    forall c,
      table_lookup (method_of c) method_table = Some true ->
      raised (fst (call_method limit child c (snd r))) = false ->
      events (snd (call_method limit child c (snd r)))
        = events st ++ [FlagModified parent attr; FlagModified parent attr].
Proof.
  intros Hroot Hw Hcls Hd Hk Ha.
  set (child := {| cls := match o with
                          | RDict _ => NestedMutationDict
                          | RList _ => NestedMutationList
                          end;
                   _d := a; __parent__ := Some w; _parents := [] |}).
  assert (call_method limit w (call_setdefault key (VRaw a)) st =
          (Value (VNested child),
           changed w {| heap := <[_d w := RDict (items ++ [(key, VNested child)])]> (heap st);
                        events := events st |})) as Hcall.
  { unfold call_method, setdefault, isinstance. rewrite Hcls, Ha.
    unfold replacer. subst child.
    destruct o as [xs|xs]; simpl;
      rewrite (raw_call_dict limit _ _ _ items Hd); simpl; rewrite Hk; simpl;
      by rewrite dict_store_absent. }
  exists child. simpl. rewrite Hcall. simpl.
  assert (root_of child = root) as Hchild by (by subst child).
  split_and!; try done.
  - by rewrite changed_heap.
  - by rewrite (changed_tracked w root parent attr).
  - rewrite changed_heap. simpl. intros Hrooted a0 o0 w0 Ha0 Hin.
    destruct (decide (a0 = _d w)) as [->|Hne].
    + rewrite list_lookup_insert_eq in Ha0 by (by eapply lookup_lt_Some).
      injection Ha0 as <-. simpl in Hin. rewrite map_app in Hin.
      apply elem_of_app in Hin as [Hin|Hin].
      * by apply (Hrooted (_d w) (RDict items) w0).
      * simpl in Hin. apply list_elem_of_singleton in Hin. by injection Hin as ->.
    + rewrite list_lookup_insert_ne in Ha0 by done. by eapply Hrooted.
  - intros c Hmut Hret.
    rewrite (mutating_call_events limit _ root child parent attr c Hroot Hchild Hmut).
    rewrite Hret, (changed_tracked w root parent attr) by done. simpl.
    by rewrite <- app_assoc.
Qed.

(** X8. [setdefault] with a key that is present returns the stored value and
    leaves the store as it is, yet the owners of the root are marked dirty
    all the same. *)
Theorem setdefault_existing_key_still_marks (limit : nat) (st : State) (w : Wrapper)
    (key : Key) (default v : PyVal) (items : list (Key * PyVal)) :
  cls w = NestedMutationDict ->
  heap st !! _d w = Some (RDict items) ->
  dict_lookup key items = Some v ->
  let r := call_method limit w (call_setdefault key default) st in
  fst r = Value v /\
  heap (snd r) = heap st /\
  events (snd r) =
    events st ++ map (fun pk => FlagModified (fst pk) (snd pk)) (_parents (root_of w)).
Proof.
  intros Hcls Hd Hk. simpl.
  unfold call_method, setdefault. rewrite Hcls.
  set (default' := if isinstance _ _ _ then _ else _).
  unfold replacer. rewrite (raw_call_dict limit _ _ _ items Hd). simpl. rewrite Hk. simpl.
  rewrite changed_heap, changed_spec. simpl.
  by rewrite (insert_same _ _ _ Hd).
Qed.

(** A raw method other than [update] that raises has changed nothing. *)
Lemma raw_call_raises (limit : nat) (c : Call) (h : list RawObj) (a : addr) :
  method_of c <> m_update ->
  raised (fst (raw_call limit c h a)) = true -> snd (raw_call limit c h a) = h.
Proof.
  intros Hc. unfold raw_call. destruct (h !! a) as [[items|items]|] eqn:Ha; [| |done].
  - destruct c; try (by destruct Hc); simpl; repeat case_match; simplify_eq/=;
      try discriminate; intros _; by apply insert_same.
  - destruct c; try (by destruct Hc); simpl; repeat case_match; simplify_eq/=;
      try discriminate; intros _; rewrite app_nil_r; by apply insert_same.
Qed.

(** X9. A call on a wrapper that raises (a missing key, an index out of
    range, a value [remove] does not find, a method the wrapped type does
    not have, a malformed argument of [update]) marks nothing dirty; and
    unless the call is [update], which stores the pairs it meets before a
    malformed element, the store is exactly as it was as well. *)
Theorem raising_call_changes_nothing (limit : nat) (w : Wrapper) (c : Call) (st : State) :
  raised (fst (call_method limit w c st)) = true ->
  events (snd (call_method limit w c st)) = events st /\
  (method_of c <> m_update -> snd (call_method limit w c st) = st).
Proof.
  assert (forall mutates c',
            raised (fst (replacer limit mutates w c' st)) = true ->
            events (snd (replacer limit mutates w c' st)) = events st /\
            (method_of c' <> m_update -> snd (replacer limit mutates w c' st) = st)) as Hrep.
  { intros mutates c' Hr. split.
    - rewrite replacer_events, Hr. simpl. by rewrite andb_false_r.
    - intros Hc. revert Hr. unfold replacer.
      pose proof (raw_call_raises limit c' (heap st) (_d w) Hc) as Hraw.
      destruct (raw_call limit c' (heap st) (_d w)) as [value h]. simpl in Hraw.
      destruct value; try discriminate; destruct mutates; try discriminate;
        simpl; intros Hr; rewrite (Hraw Hr); apply state_eta. }
  assert (forall r : Result,
            events (snd (r, st)) = events st /\
            (method_of c <> m_update -> snd (r, st) = st)) as Hsame by done.
  unfold call_method, setdefault.
  destruct (cls w), c;
    try (intros Hr; destruct (Hrep _ _ Hr) as [H1 H2]; split;
         [exact H1 | intros Hc; apply H2; exact Hc]);
    try (intros _; rewrite getitem_state; by split);
    try (unfold __eq__; intros _; apply Hsame);
    try (unfold __repr__; case_match; intros _; apply Hsame);
    (destruct (installed _ _) as [mutates|];
     [intros Hr; destruct (Hrep _ _ Hr) as [H1 H2]; split;
      [exact H1 | intros Hc; apply H2; exact Hc]
     | intros _; apply Hsame]).
Qed.



(** X10. A mutating call that the raw container carries out marks every
    owner registered on the root of the parent chain, once each and in
    their order, and adds nothing else to the trace. *)
Theorem mutating_call_flags_every_owner (limit : nat) (w : Wrapper) (c : Call) (st : State) :
  table_lookup (method_of c) method_table = Some true ->
  raised (fst (call_method limit w c st)) = false ->
  events (snd (call_method limit w c st)) =
    events st ++ map (fun pk => FlagModified (fst pk) (snd pk)) (_parents (root_of w)).
Proof.
  intros Hmut.
  assert (forall c',
            raised (fst (replacer limit true w c' st)) = false ->
            events (snd (replacer limit true w c' st)) =
              events st ++ map (fun pk => FlagModified (fst pk) (snd pk))
                               (_parents (root_of w))) as Hrep.
  { intros c' Hret. by rewrite replacer_events, Hret. }
  unfold call_method, setdefault.
  destruct (cls w), c; try discriminate Hmut; try apply Hrep;
    (destruct (installed _ _) as [mutates|] eqn:Hi; [|done];
     apply installed_flag in Hi; rewrite Hmut in Hi; injection Hi as <-; apply Hrep).
Qed.

(** X11. A wrapper that hangs below no record (the root of its parent chain
    has no registered owner, as for a wrapper straight out of [coerce] or
    the constructor) takes every call without a trace: the change is made
    and nothing is marked or reported. *)
Theorem unbound_wrapper_marks_nothing (limit : nat) (w : Wrapper) (c : Call) (st : State) :
  _parents (root_of w) = [] ->
  events (snd (call_method limit w c st)) = events st.
Proof.
  intros Hnone. destruct (call_method_events limit w c st) as [H|H]; [done|].
  rewrite H, Hnone. simpl. by rewrite app_nil_r.
Qed.

(** X12. A call on a wrapper touches no container but the one it wraps:
    every other object of the store is afterwards what it was, and no
    object disappears. *)
Theorem call_leaves_other_containers (limit : nat) (w : Wrapper) (c : Call) (st : State)
    (a : addr) (o : RawObj) :
  _d w <> a ->
  heap st !! a = Some o ->
  heap (snd (call_method limit w c st)) !! a = Some o /\
  (length (heap st) <= length (heap (snd (call_method limit w c st))))%nat.
Proof.
  intros Hne Ha. split; [by apply call_method_other|].
  assert (forall mutates c',
            (length (heap st) <= length (heap (snd (replacer limit mutates w c' st))))%nat)
    as Hrep.
  { intros mutates c'. rewrite replacer_heap. apply raw_call_length. }
  unfold call_method, setdefault.
  destruct (cls w), c;
    try apply Hrep;
    try (by rewrite getitem_state);
    try (unfold __eq__; done);
    try (unfold __repr__; by case_match);
    (destruct (installed _ _) as [mutates|]; [apply Hrep | done]).
Qed.

(** ** Coercion, wrapping and record construction *)

(** X13. [coerce] on a raw container of the wrapped type builds a wrapper
    around that very container (no copy is made), without parent and
    without owner, so calls on it change the argument and mark nothing; and
    [coerce] on the wrapper it returned gives it back unchanged. *)
Theorem coerce_wraps_in_place (limit : nat) (c : Class) (key : string) (h : list RawObj)
    (a : addr) (o : RawObj) :
  h !! a = Some o ->
  raw_type o = wrapped_type c ->
  exists w,
    coerce c key (VRaw a) h = Value (VNested w) /\
    cls w = c /\ _d w = a /\ __parent__ w = None /\ _parents w = [] /\
    (forall key', coerce c key' (VNested w) h = Value (VNested w)) /\
    (forall call st, events (snd (call_method limit w call st)) = events st).
Proof.
  intros Ha Hty.
  exists {| cls := c; _d := a; __parent__ := None; _parents := [] |}.
  split_and!; try done.
  - unfold coerce, isinstance. rewrite Ha, Hty.
    by rewrite bool_decide_eq_true_2.
  - intros key'. unfold coerce. simpl. by rewrite decide_True.
  - intros call st.
    destruct (call_method_events limit
                {| cls := c; _d := a; __parent__ := None; _parents := [] |} call st)
      as [H|H]; [done|].
    rewrite H. simpl. by rewrite app_nil_r.
Qed.

(** X14. [coerce] accepts exactly [None], a wrapper of the class it is
    called on, and a raw container of the type that class wraps; anything
    else (also a wrapper of the other class) is a [ValueError]. *)
Theorem coerce_accepts_iff (c : Class) (key : string) (value : PyVal) (h : list RawObj) :
  (coerce c key value h <> Raises ValueError <->
     value = VNone \/ (exists w, value = VNested w /\ cls w = c) \/
     isinstance h value (wrapped_type c) = true) /\
  (raised (coerce c key value h) = true -> coerce c key value h = Raises ValueError).
Proof.
  unfold coerce. split.
  - destruct value as [| | | |a|w]; simpl;
      try (split; [done | by intros [|[(? & ? & ?)|]]]).
    + split; [by left | done].
    + unfold isinstance. destruct (h !! a) as [o|]; simpl.
      * destruct (bool_decide (raw_type o = wrapped_type c)); simpl.
        -- split; [by right; right | done].
        -- split; [done | by intros [|[(? & ? & ?)|]]].
      * split; [done | by intros [|[(? & ? & ?)|]]].
    + destruct (decide (cls w = c)) as [Hc|Hc].
      * split; [|done]. intros _. right. left. by exists w.
      * split; [done|]. intros [|[(w' & [= <-] & ?)|]]; done.
  - destruct value as [| | | |a|w]; simpl; try done.
    + unfold isinstance. destruct (h !! a) as [o|]; simpl; [|done].
      by destruct (bool_decide (raw_type o = wrapped_type c)).
    + by destruct (decide (cls w = c)).
Qed.

(** X15. Wrapping twice is wrapping once: what [wrap_as_nested] returns
    (the wrapper of a copy for a raw container, the value itself for
    [None], an atom or a wrapper) passes through a second [wrap_as_nested]
    unchanged, whatever record and attribute the second call names; the
    second call copies nothing and registers no owner. *)
Theorem wrap_as_nested_idempotent (key key' : string) (data : PyVal) (parent parent' : Rec)
    (h : list RawObj) :
  wrap_as_nested key' (fst (wrap_as_nested key data parent h)) parent'
      (snd (wrap_as_nested key data parent h))
    = wrap_as_nested key data parent h.
Proof.
  unfold wrap_as_nested, wrap_as_nested_in, MUTATION_WRAPPERS, isinstance.
  destruct data as [| | | |a|w]; try done.
  destruct (h !! a) as [[items|items]|] eqn:Ha; simpl; try done.
  by rewrite Ha.
Qed.

(** X16. The [init] listener assigns every JSON-like column of the record
    once, in the order of the columns, and assigns no other attribute. *)
Theorem init_assigns_each_json_column (target : Rec) (columns : list Column) :
  forall st, exists new,
    events (init target columns st) = events st ++ new /\
    Forall2 (fun ev c => exists v, ev = SetAttr target (name c) v)
            new (List.filter is_json_like_column columns).
Proof.
  induction columns as [|c rest IH]; intros st; simpl.
  - exists []. by rewrite app_nil_r.
  - destruct (is_json_like_column c) eqn:Hj; [|apply IH].
    destruct (_get_column_default target c (heap st)) as [d0 h1].
    destruct (wrap_as_nested (name c) d0 target h1) as [d1 h2].
    destruct (IH {| heap := h2; events := events st ++ [SetAttr target (name c) d1] |})
      as (new & Hev & Hall).
    exists (SetAttr target (name c) d1 :: new). simpl in Hev. rewrite Hev.
    split; [by rewrite <- app_assoc|]. constructor; [by exists d1 | done].
Qed.

(** X17. When no column has a default, the [init] listener sets every
    JSON-like column to [None] and leaves the store alone. *)
Theorem init_without_defaults (target : Rec) (columns : list Column) :
  Forall (fun c => default c = None) columns ->
  forall st,
    init target columns st =
      {| heap := heap st;
         events := events st ++
           map (fun c => SetAttr target (name c) VNone)
               (List.filter is_json_like_column columns) |}.
Proof.
  induction 1 as [|c rest Hc _ IH]; intros st; simpl.
  - rewrite app_nil_r. by destruct st.
  - destruct (is_json_like_column c) eqn:Hj; [|apply IH].
    unfold _get_column_default. rewrite Hc. simpl.
    rewrite IH. simpl. by rewrite <- app_assoc.
Qed.

(** X18. Two records constructed with the same literal [dict] or [list] as
    column default get wrappers around two different copies, each bound to
    its own record: method calls on the first record's wrapper itself
    change neither the items of the second record's container nor those of
    the default.  The copies are shallow ([data.copy()]): a container
    nested in the default stays shared by all three, see
    [nested_default_is_shared]. *)
Theorem init_copies_literal_default (limit : nat) (t1 t2 : Rec) (column : string)
    (a : addr) (o : RawObj) (st : State) :
  heap st !! a = Some o ->
  let c := {| name := column; json_like := true; default := Some (Literal (VRaw a)) |} in
  let st2 := init t2 [c] (init t1 [c] st) in
  exists w1 w2,
    events st2 = events st ++ [SetAttr t1 column (VNested w1); SetAttr t2 column (VNested w2)] /\
    tracked_root w1 t1 column /\ tracked_root w2 t2 column /\
    _d w1 <> _d w2 /\ _d w1 <> a /\ _d w2 <> a /\
    heap st2 !! _d w1 = Some o /\ heap st2 !! _d w2 = Some o /\
    forall calls,
      heap (run_calls limit w1 calls st2) !! _d w2 = Some o /\
      heap (run_calls limit w1 calls st2) !! a = Some o.
Proof.
  intros Ha c st2. subst c st2.
  pose proof (lookup_lt_Some _ _ _ Ha) as Hlt.
  destruct (wrap_as_nested_raw column a t1 (heap st) o Ha) as (c1 & _ & Hw1).
  assert ((heap st ++ [o]) !! a = Some o) as Ha' by (by apply lookup_app_l_Some).
  destruct (wrap_as_nested_raw column a t2 (heap st ++ [o]) o Ha') as (c2 & _ & Hw2).
  simpl. unfold _get_column_default. simpl. rewrite Hw1. simpl. rewrite Hw2. simpl.
  exists {| cls := c1; _d := length (heap st); __parent__ := None;
            _parents := [(t1, column)] |},
         {| cls := c2; _d := length (heap st ++ [o]); __parent__ := None;
            _parents := [(t2, column)] |}.
  split_and!; try done; simpl.
  - by rewrite <- app_assoc.
  - rewrite length_app. simpl. lia.
  - lia.
  - rewrite length_app. simpl. lia.
  - apply lookup_app_l_Some. by apply list_lookup_middle.
  - by apply list_lookup_middle.
  - intros calls. split.
    + apply run_calls_other; simpl; [rewrite length_app; simpl; lia|].
      by apply list_lookup_middle.
    + apply run_calls_other; simpl; [lia|]. by apply lookup_app_l_Some.
Qed.

(** The copies [wrap_as_nested] makes are shallow.  With the default
    [{"a": []}], [record7.data["a"].append(1)] marks record 7 only, and the
    item is then read through record 8 as well, and is in the default. *)
Example nested_default_is_shared :
  exists child7 child8,
    follow 10 shared_state shared_root7 [KStr "a"] = Some child7 /\
    follow 10 shared_state shared_root8 [KStr "a"] = Some child8 /\
    let st := snd (call_method 10 child7 (call_append (VInt 1)) shared_state) in
    events st = events shared_state ++ [FlagModified 7%nat "data"] /\
    fst (call_method 10 child8 (call_getitem (KInt 0)) st) = Value (VInt 1) /\
    fst (py_call 10 (VRaw 0%nat) (call_getitem (KInt 0)) st) = Value (VInt 1).
Proof.
  exists {| cls := NestedMutationList; _d := 0%nat; __parent__ := Some shared_root7;
            _parents := [] |},
         {| cls := NestedMutationList; _d := 0%nat; __parent__ := Some shared_root8;
            _parents := [] |}.
  split; [reflexivity|]. split; [reflexivity|]. cbv zeta.
  split_and!; reflexivity.
Qed.

(** ** Projection, once more *)

Lemma values_of_zip (keys : list Key) :
  forall vs : list PyVal, length keys = length vs -> map snd (zip keys vs) = vs.
Proof.
  induction keys as [|k keys IH]; intros [|v vs]; simpl; try done.
  intros [= Hlen]. by rewrite IH.
Qed.

(** The comprehension only allocates, keeps the number of items and leaves
    no wrapper among them, provided the projection of a wrapper only
    allocates. *)
Lemma project_values_plain
    (project : list RawObj -> Wrapper -> PyExc + (addr * list RawObj)) :
  (forall h w a h', project h w = inr (a, h') -> exists new, h' = h ++ new) ->
  forall vs h vs' h',
  project_values project h vs = inr (vs', h') ->
  (exists new, h' = h ++ new) /\
  length vs' = length vs /\
  Forall (fun v => is_wrapper v = None) vs'.
Proof.
  intros Hgrow. induction vs as [|v vs IH]; intros h vs' h'; simpl.
  - intros [= <- <-]. split_and!; [exists []; by rewrite app_nil_r | done | constructor].
  - destruct (is_wrapper v) as [w|] eqn:Hw.
    + destruct v; try discriminate Hw. injection Hw as ->.
      destruct (project h w) as [e|[a h1]] eqn:Hp; [done|].
      destruct (project_values project h1 vs) as [e|[vs1 h2]] eqn:Hrest; [done|].
      intros [= <- <-].
      destruct (Hgrow _ _ _ _ Hp) as [new1 ->].
      destruct (IH _ _ _ Hrest) as ([new2 ->] & Hlen & Hplain).
      split_and!; [exists (new1 ++ new2); by rewrite app_assoc | simpl; by rewrite Hlen |].
      by constructor.
    + assert (project_values project h (v :: vs) =
              match project_values project h vs with
              | inl e => inl e
              | inr (vs1, h2) => inr (v :: vs1, h2)
              end) as Heq by (by destruct v).
      simpl in Heq. rewrite Heq.
      destruct (project_values project h vs) as [e|[vs1 h2]] eqn:Hrest; [done|].
      intros [= <- <-].
      destruct (IH _ _ _ Hrest) as (Hnew & Hlen & Hplain).
      split_and!; [done | simpl; by rewrite Hlen | by constructor].
Qed.

Lemma json_grows (fuel : nat) :
  forall h w a h', __json__ fuel h w = inr (a, h') -> exists new, h' = h ++ new.
Proof.
  induction fuel as [|fuel IH]; intros h w a h'; simpl; [done|].
  destruct (cls w), (h !! _d w) as [[items|items]|]; try done.
  - destruct (project_values (__json__ fuel) h (map snd items)) as [e|[vs h1]] eqn:Hp;
      [done|].
    intros [= <- <-].
    destruct (project_values_plain _ IH _ _ _ _ Hp) as ([new ->] & _).
    exists (new ++ [RDict (zip (map fst items) vs)]). by rewrite app_assoc.
  - intros [= <- <-]. by eexists.
  - destruct (project_values (__json__ fuel) h items) as [e|[vs h1]] eqn:Hp; [done|].
    intros [= <- <-].
    destruct (project_values_plain _ IH _ _ _ _ Hp) as ([new ->] & _).
    exists (new ++ [RList vs]). by rewrite app_assoc.
Qed.

(** X19. Whenever [__json__] returns, it has only added to the store: the
    result is a new container, no existing object is changed, it has as
    many items as the wrapped container, and none of its items is a
    wrapper (each wrapper among the items has been replaced by its own
    projection). *)
Theorem json_builds_new_plain_container (fuel : nat) (h : list RawObj) (w : Wrapper)
    (a : addr) (h' : list RawObj) :
  __json__ fuel h w = inr (a, h') ->
  exists new o od,
    h' = h ++ new /\
    (length h <= a)%nat /\
    h' !! a = Some o /\
    h !! _d w = Some od /\
    length (values_of o) = length (values_of od) /\
    Forall (fun v => is_wrapper v = None) (values_of o).
Proof.
  destruct fuel as [|fuel]; simpl; [done|].
  destruct (cls w), (h !! _d w) as [[items|items]|] eqn:Hd; try done.
  - destruct (project_values (__json__ fuel) h (map snd items)) as [e|[vs h1]] eqn:Hp;
      [done|].
    intros [= <- <-].
    destruct (project_values_plain _ (json_grows fuel) _ _ _ _ Hp)
      as ([new ->] & Hlen & Hplain).
    rewrite List.length_map in Hlen.
    exists (new ++ [RDict (zip (map fst items) vs)]), (RDict (zip (map fst items) vs)),
           (RDict items).
    assert (map snd (zip (map fst items) vs) = vs) as Hvs.
    { apply values_of_zip. by rewrite List.length_map. }
    split_and!; try done.
    + by rewrite app_assoc.
    + rewrite length_app. lia.
    + by apply list_lookup_middle.
    + simpl. by rewrite Hvs, List.length_map.
    + simpl. by rewrite Hvs.
  - intros [= <- <-].
    exists [RList (map (fun kv => key_val (fst kv)) items)],
           (RList (map (fun kv => key_val (fst kv)) items)), (RDict items).
    split_and!; try done.
    + by apply list_lookup_middle.
    + simpl. by rewrite !List.length_map.
    + simpl. apply Forall_forall. intros v Hv.
      apply list_elem_of_In, List.in_map_iff in Hv as ([k x] & <- & _). by destruct k.
  - destruct (project_values (__json__ fuel) h items) as [e|[vs h1]] eqn:Hp; [done|].
    intros [= <- <-].
    destruct (project_values_plain _ (json_grows fuel) _ _ _ _ Hp)
      as ([new ->] & Hlen & Hplain).
    exists (new ++ [RList vs]), (RList vs), (RList items).
    split_and!; try done.
    + by rewrite app_assoc.
    + rewrite length_app. lia.
    + by apply list_lookup_middle.
Qed.

(** ** Writing and reading back *)

(** X20. On a mapping wrapper, after [w[key] = value] the key reads back:
    [get(key)] returns the value as it was stored, [w[key]] returns it
    wrapped when it is a plain container, every other key reads as before,
    and the owners of the root have been marked once. *)
Theorem setitem_then_read (limit : nat) (w : Wrapper) (key : Key) (value : PyVal)
    (st : State) (items : list (Key * PyVal)) :
  cls w = NestedMutationDict ->
  heap st !! _d w = Some (RDict items) ->
  let r := call_method limit w (call_setitem key value) st in
  fst r = Value VNone /\
  events (snd r) =
    events st ++ map (fun pk => FlagModified (fst pk) (snd pk)) (_parents (root_of w)) /\
  (forall d, call_method limit w (call_get key d) (snd r) = (Value value, snd r)) /\
  call_method limit w (call_getitem key) (snd r)
    = (Value (try_wrap (heap (snd r)) w value), snd r) /\
  (forall key' d, key' <> key ->
     fst (call_method limit w (call_get key' d) (snd r))
       = fst (call_method limit w (call_get key' d) st)).
Proof.
  intros Hcls Hd.
  assert (call_method limit w (call_setitem key value) st =
          (Value VNone,
           changed w {| heap := <[_d w := RDict (dict_store key value items)]> (heap st);
                        events := events st |})) as Hcall.
  { unfold call_method. rewrite Hcls. simpl. unfold replacer.
    by rewrite (raw_call_dict limit _ _ _ items Hd). }
  simpl. rewrite Hcall. simpl.
  set (st1 := changed w _).
  assert (heap st1 !! _d w = Some (RDict (dict_store key value items))) as Hd1.
  { subst st1. rewrite changed_heap. simpl.
    apply list_lookup_insert_eq. by eapply lookup_lt_Some. }
  split_and!.
  - done.
  - subst st1. by rewrite changed_spec.
  - intros d. unfold call_method. rewrite Hcls. simpl. unfold replacer.
    rewrite (raw_call_dict limit _ _ _ _ Hd1). simpl.
    rewrite dict_lookup_store_eq. simpl.
    by rewrite (insert_same _ _ _ Hd1), state_eta.
  - unfold call_method. rewrite Hcls. unfold __getitem__.
    rewrite (raw_call_dict limit _ _ _ _ Hd1). simpl.
    rewrite dict_lookup_store_eq. simpl.
    by rewrite (insert_same _ _ _ Hd1), state_eta.
  - intros key' d Hne. unfold call_method. rewrite Hcls. simpl. unfold replacer.
    rewrite (raw_call_dict limit _ _ _ _ Hd1), (raw_call_dict limit _ _ _ _ Hd). simpl.
    rewrite dict_lookup_store_ne by done.
    by destruct (dict_lookup key' items).
Qed.

Lemma norm_index_last (n : nat) : norm_index (S n) (-1) = Some n.
Proof.
  unfold norm_index. change (-1 <? 0) with true. cbv iota.
  replace (-1 + Z.of_nat (S n)) with (Z.of_nat n) by lia.
  destruct (Z.leb_spec 0 (Z.of_nat n)); [|lia].
  destruct (Z.ltb_spec (Z.of_nat n) (Z.of_nat (S n))); [|lia].
  simpl. by rewrite Nat2Z.id.
Qed.

(** X21. On a sequence wrapper, [append(x)] followed by [pop()] gives [x]
    back and restores the store; in between the length is one more than
    before, and each of the two calls has marked the owners of the root. *)
Theorem append_then_pop (limit : nat) (w : Wrapper) (x : PyVal) (st : State)
    (items : list PyVal) :
  cls w = NestedMutationList ->
  heap st !! _d w = Some (RList items) ->
  let st1 := snd (call_method limit w (call_append x) st) in
  let r := call_method limit w (call_pop None None) st1 in
  fst (call_method limit w call_len st1) = Value (VInt (Z.of_nat (length items) + 1)) /\
  fst r = Value x /\
  heap (snd r) = heap st /\
  events (snd r) =
    events st ++ map (fun pk => FlagModified (fst pk) (snd pk)) (_parents (root_of w))
              ++ map (fun pk => FlagModified (fst pk) (snd pk)) (_parents (root_of w)).
Proof.
  intros Hcls Hd.
  assert (call_method limit w (call_append x) st =
          (Value VNone,
           changed w {| heap := <[_d w := RList (items ++ [x])]> (heap st);
                        events := events st |})) as Hcall.
  { unfold call_method. rewrite Hcls. simpl. unfold replacer.
    rewrite (raw_call_list limit _ _ _ items Hd). simpl. by rewrite app_nil_r. }
  simpl. rewrite Hcall. simpl.
  set (st1 := changed w _).
  pose proof (lookup_lt_Some _ _ _ Hd) as Hlt.
  assert (heap st1 !! _d w = Some (RList (items ++ [x]))) as Hd1.
  { subst st1. rewrite changed_heap. simpl. by apply list_lookup_insert_eq. }
  assert (length (items ++ [x]) = S (length items)) as Hlen
    by (rewrite length_app; simpl; lia).
  split_and!.
  - unfold call_method. rewrite Hcls. simpl. unfold replacer.
    rewrite (raw_call_list limit _ _ _ _ Hd1). simpl. rewrite Hlen.
    do 2 f_equal. lia.
  - unfold call_method. rewrite Hcls. simpl. unfold replacer.
    rewrite (raw_call_list limit _ _ _ _ Hd1). simpl.
    rewrite Hlen, norm_index_last, list_lookup_middle by done. done.
  - unfold call_method. rewrite Hcls. simpl. unfold replacer.
    rewrite (raw_call_list limit _ _ _ _ Hd1). simpl.
    rewrite Hlen, norm_index_last, list_lookup_middle by done. simpl.
    rewrite changed_heap. simpl. rewrite app_nil_r.
    subst st1. rewrite changed_heap. simpl.
    rewrite list_insert_insert_eq.
    replace (delete (length items) (items ++ [x])) with items.
    + by apply insert_same.
    + rewrite delete_middle. by rewrite app_nil_r.
  - unfold call_method. rewrite Hcls. simpl. unfold replacer.
    rewrite (raw_call_list limit _ _ _ _ Hd1). simpl.
    rewrite Hlen, norm_index_last, list_lookup_middle by done. simpl.
    rewrite changed_spec. subst st1. rewrite changed_spec. simpl.
    by rewrite <- app_assoc.
Qed.

(** X22. [other + wrapper] for a plain list [other] goes through
    [__radd__] and gives a new plain list, the items of [other] followed by
    those of the wrapped list; both operands stay as they are and nothing
    is marked dirty. *)
Theorem radd_concatenates (limit : nat) (w : Wrapper) (b : addr) (st : State)
    (xs ys : list PyVal) :
  heap st !! _d w = Some (RList xs) ->
  heap st !! b = Some (RList ys) ->
  __radd__ limit w (VRaw b) st =
    (Value (VRaw (length (heap st))),
     {| heap := heap st ++ [RList (ys ++ xs)]; events := events st |}).
Proof.
  intros Hd Hb. unfold __radd__, py_call.
  rewrite (raw_call_list limit _ _ _ ys Hb). simpl. rewrite Hd. simpl.
  by rewrite (insert_same _ _ _ Hb).
Qed.

(** Comparing two keys as values. *)
Lemma key_compare (k : nat) (h : list RawObj) (k1 k2 : Key) :
  rich_compare_bool (S k) h (key_val k1) (key_val k2) = Some (bool_decide (k1 = k2)).
Proof.
  unfold rich_compare_bool.
  destruct k1 as [s1|i1|], k2 as [s2|i2|]; cbn [key_val identical py_eq atom_eq];
    try (by rewrite bool_decide_eq_false_2);
    try (by rewrite bool_decide_eq_true_2).
  - destruct (String.eqb_spec s1 s2) as [->|Hne].
    + by rewrite bool_decide_eq_true_2.
    + rewrite bool_decide_eq_false_2; [done | congruence].
  - destruct (Z.eqb_spec i1 i2) as [->|Hne].
    + by rewrite bool_decide_eq_true_2.
    + rewrite bool_decide_eq_false_2; [done | congruence].
Qed.

Lemma find_key (k : nat) (h : list RawObj) (key : Key) (items : list (Key * PyVal)) :
  forall i,
  match find_equal (rich_compare_bool (S k) h) (key_val key)
          (map (fun kv => key_val (fst kv)) items) i with
  | Some (Some _) => is_Some (dict_lookup key items)
  | Some None => dict_lookup key items = None
  | None => False
  end.
Proof.
  induction items as [|[k' v'] items IH]; intros i; simpl; [done|].
  rewrite key_compare.
  destruct (decide (key = k')) as [->|Hne].
  - by rewrite bool_decide_eq_true_2.
  - rewrite bool_decide_eq_false_2 by congruence. apply IH.
Qed.

(** X23. On a mapping wrapper [key in w] tests the keys: it is true
    exactly when [w[key]] would not raise [KeyError], and it marks
    nothing. *)
Theorem contains_agrees_with_lookup (limit : nat) (w : Wrapper) (key : Key) (st : State)
    (items : list (Key * PyVal)) :
  (1 <= limit)%nat ->
  cls w = NestedMutationDict ->
  heap st !! _d w = Some (RDict items) ->
  contains limit w (key_val key) st
    = (Value (VBool (bool_decide (is_Some (dict_lookup key items)))), st).
Proof.
  intros Hlimit Hcls Hd. destruct limit as [|k]; [lia|].
  unfold contains, call_method. rewrite Hcls. simpl. unfold replacer.
  rewrite (raw_call_dict _ _ _ _ items Hd). simpl.
  rewrite (insert_same _ _ _ Hd), state_eta.
  pose proof (find_key k (heap st) key items 0) as Hfind.
  destruct (find_equal _ _ _ _) as [[j|]|]; [| |done].
  - by rewrite bool_decide_eq_true_2.
  - rewrite bool_decide_eq_false_2; [done|]. rewrite Hfind. by intros [? ?].
Qed.

(** ** The scenarios, continued *)

Lemma setdefault_tracks_new_container_witness :
  exists child,
    let r := call_method 10 demo_root (call_setdefault (KStr "b") (VRaw 0%nat)) demo_state in
    fst r = Value (VNested child) /\
    __parent__ child = Some demo_root /\ _d child = 0%nat /\
    heap (snd r) = <[_d demo_root :=
                       RDict ([(KStr "a", VRaw 0%nat)] ++ [(KStr "b", VNested child)])]>
                     (heap demo_state) /\
    events (snd r) = events demo_state ++ [FlagModified 7%nat "data"] /\
    (wrappers_rooted demo_root (heap demo_state) ->
     wrappers_rooted demo_root (heap (snd r))) /\
    forall c,
      table_lookup (method_of c) method_table = Some true ->
      raised (fst (call_method 10 child c (snd r))) = false ->
      events (snd (call_method 10 child c (snd r)))
        = events demo_state ++ [FlagModified 7%nat "data"; FlagModified 7%nat "data"].
Proof.
  apply (setdefault_tracks_new_container 10 demo_state demo_root demo_root 7%nat "data"
           (KStr "b") 0%nat (RList [VInt 1; VInt 2]) [(KStr "a", VRaw 0%nat)]);
    first [reflexivity | split; reflexivity].
Defined.

Lemma setdefault_existing_key_still_marks_witness :
  let r := call_method 10 demo_root (call_setdefault (KStr "a") VNone) demo_state in
  fst r = Value (VRaw 0%nat) /\
  heap (snd r) = heap demo_state /\
  events (snd r) =
    events demo_state ++
      map (fun pk => FlagModified (fst pk) (snd pk)) (_parents (root_of demo_root)).
Proof.
  apply (setdefault_existing_key_still_marks 10 demo_state demo_root (KStr "a") VNone
           (VRaw 0%nat) [(KStr "a", VRaw 0%nat)]);
    reflexivity.
Defined.

Lemma raising_call_changes_nothing_witness :
  events (snd (call_method 10 empty_child (call_pop None None)
                 {| heap := empty_heap; events := [] |})) = [] /\
  (method_of (call_pop None None) <> m_update ->
   snd (call_method 10 empty_child (call_pop None None)
          {| heap := empty_heap; events := [] |})
     = {| heap := empty_heap; events := [] |}).
Proof.
  apply (raising_call_changes_nothing 10 empty_child (call_pop None None)
           {| heap := empty_heap; events := [] |}).
  reflexivity.
Defined.


Lemma follow_plain_rooted_witness : root_of demo_child = root_of demo_root.
Proof.
  apply (follow_plain_rooted 10 demo_state [KStr "a"] demo_root demo_child);
    reflexivity.
Defined.

Lemma mutating_call_flags_every_owner_witness :
  events (snd (call_method 10 demo_child (call_insert 0 (VInt 0)) demo_state)) =
    events demo_state ++
      map (fun pk => FlagModified (fst pk) (snd pk)) (_parents (root_of demo_child)).
Proof.
  apply (mutating_call_flags_every_owner 10 demo_child (call_insert 0 (VInt 0)) demo_state);
    reflexivity.
Defined.

Lemma unbound_wrapper_marks_nothing_witness :
  events (snd (call_method 10 loose_list (call_append (VInt 3)) demo_state))
    = events demo_state.
Proof.
  apply (unbound_wrapper_marks_nothing 10 loose_list (call_append (VInt 3)) demo_state).
  reflexivity.
Defined.

Lemma call_leaves_other_containers_witness :
  heap (snd (call_method 10 demo_child (call_clear) demo_state)) !! 2%nat
    = Some (RDict [(KStr "a", VRaw 0%nat)]) /\
  (length (heap demo_state)
     <= length (heap (snd (call_method 10 demo_child (call_clear) demo_state))))%nat.
Proof.
  apply (call_leaves_other_containers 10 demo_child call_clear demo_state 2%nat
           (RDict [(KStr "a", VRaw 0%nat)]));
    [simpl; lia | reflexivity].
Defined.

Lemma coerce_wraps_in_place_witness :
  exists w,
    coerce NestedMutationList "data" (VRaw 0%nat) demo_heap = Value (VNested w) /\
    cls w = NestedMutationList /\ _d w = 0%nat /\ __parent__ w = None /\ _parents w = [] /\
    (forall key', coerce NestedMutationList key' (VNested w) demo_heap = Value (VNested w)) /\
    (forall call st, events (snd (call_method 10 w call st)) = events st).
Proof.
  apply (coerce_wraps_in_place 10 NestedMutationList "data" demo_heap 0%nat
           (RList [VInt 1; VInt 2]));
    reflexivity.
Defined.

Lemma init_without_defaults_witness :
  init 7%nat plain_columns demo_state =
    {| heap := heap demo_state;
       events := events demo_state ++
         map (fun c => SetAttr 7%nat (name c) VNone)
             (List.filter is_json_like_column plain_columns) |}.
Proof.
  apply (init_without_defaults 7%nat plain_columns).
  repeat constructor.
Defined.

Lemma init_copies_literal_default_witness :
  let c := {| name := "data"; json_like := true; default := Some (Literal (VRaw 1%nat)) |} in
  let st2 := init 8%nat [c] (init 7%nat [c] demo_state) in
  exists w1 w2,
    events st2 = events demo_state ++
                   [SetAttr 7%nat "data" (VNested w1); SetAttr 8%nat "data" (VNested w2)] /\
    tracked_root w1 7%nat "data" /\ tracked_root w2 8%nat "data" /\
    _d w1 <> _d w2 /\ _d w1 <> 1%nat /\ _d w2 <> 1%nat /\
    heap st2 !! _d w1 = Some (RDict [(KStr "a", VRaw 0%nat)]) /\
    heap st2 !! _d w2 = Some (RDict [(KStr "a", VRaw 0%nat)]) /\
    forall calls,
      heap (run_calls 10 w1 calls st2) !! _d w2 = Some (RDict [(KStr "a", VRaw 0%nat)]) /\
      heap (run_calls 10 w1 calls st2) !! 1%nat = Some (RDict [(KStr "a", VRaw 0%nat)]).
Proof.
  apply (init_copies_literal_default 10 7%nat 8%nat "data" 1%nat
           (RDict [(KStr "a", VRaw 0%nat)]) demo_state).
  reflexivity.
Defined.

Lemma json_builds_new_plain_container_witness :
  exists new o od,
    kept_heap ++ [RList [VStr "x"]; RDict [(KStr "n", VInt 3); (KStr "tags", VRaw 2%nat)]]
      = kept_heap ++ new /\
    (length kept_heap <= 3)%nat /\
    (kept_heap ++ [RList [VStr "x"]; RDict [(KStr "n", VInt 3); (KStr "tags", VRaw 2%nat)]])
      !! 3%nat = Some o /\
    kept_heap !! _d kept_root = Some od /\
    length (values_of o) = length (values_of od) /\
    Forall (fun v => is_wrapper v = None) (values_of o).
Proof.
  apply (json_builds_new_plain_container 10 kept_heap kept_root 3%nat
           (kept_heap ++ [RList [VStr "x"];
                          RDict [(KStr "n", VInt 3); (KStr "tags", VRaw 2%nat)]])).
  reflexivity.
Defined.

Lemma setitem_then_read_witness :
  let r := call_method 10 demo_root (call_setitem (KStr "n") (VInt 5)) demo_state in
  fst r = Value VNone /\
  events (snd r) =
    events demo_state ++
      map (fun pk => FlagModified (fst pk) (snd pk)) (_parents (root_of demo_root)) /\
  (forall d, call_method 10 demo_root (call_get (KStr "n") d) (snd r)
               = (Value (VInt 5), snd r)) /\
  call_method 10 demo_root (call_getitem (KStr "n")) (snd r)
    = (Value (try_wrap (heap (snd r)) demo_root (VInt 5)), snd r) /\
  (forall key' d, key' <> KStr "n" ->
     fst (call_method 10 demo_root (call_get key' d) (snd r))
       = fst (call_method 10 demo_root (call_get key' d) demo_state)).
Proof.
  apply (setitem_then_read 10 demo_root (KStr "n") (VInt 5) demo_state
           [(KStr "a", VRaw 0%nat)]);
    reflexivity.
Defined.

Lemma append_then_pop_witness :
  let st1 := snd (call_method 10 demo_child (call_append (VInt 3)) demo_state) in
  let r := call_method 10 demo_child (call_pop None None) st1 in
  fst (call_method 10 demo_child call_len st1)
    = Value (VInt (Z.of_nat (length [VInt 1; VInt 2]) + 1)) /\
  fst r = Value (VInt 3) /\
  heap (snd r) = heap demo_state /\
  events (snd r) =
    events demo_state
      ++ map (fun pk => FlagModified (fst pk) (snd pk)) (_parents (root_of demo_child))
      ++ map (fun pk => FlagModified (fst pk) (snd pk)) (_parents (root_of demo_child)).
Proof.
  apply (append_then_pop 10 demo_child (VInt 3) demo_state [VInt 1; VInt 2]); reflexivity.
Defined.

Lemma radd_concatenates_witness :
  __radd__ 10 demo_child (VRaw 0%nat) demo_state =
    (Value (VRaw (length (heap demo_state))),
     {| heap := heap demo_state ++ [RList ([VInt 1; VInt 2] ++ [VInt 1; VInt 2])];
        events := events demo_state |}).
Proof.
  apply (radd_concatenates 10 demo_child 0%nat demo_state [VInt 1; VInt 2] [VInt 1; VInt 2]);
    reflexivity.
Defined.

Lemma contains_agrees_with_lookup_witness :
  contains 10 demo_root (key_val (KStr "a")) demo_state
    = (Value (VBool (bool_decide
                       (is_Some (dict_lookup (KStr "a") [(KStr "a", VRaw 0%nat)])))),
       demo_state).
Proof.
  apply (contains_agrees_with_lookup 10 demo_root (KStr "a") demo_state
           [(KStr "a", VRaw 0%nat)]);
    [lia | reflexivity | reflexivity].
Defined.

End JsonFacts.

(* ===================================================================== *)
(** * Properties of the form adapters                                     *)
(* ===================================================================== *)

Module FormFacts.
Import Form.

Section Facts.

Context {Val Session : Type}.
Variable slug_to_uuid : Val -> FormExc + Val.
Variable uuid_to_slug : Val -> FormExc + Val.
Variable query_all : Session -> ModelClass -> string -> list Val -> list (Item Val).

(** A comprehension that returns has one result per element, in order. *)
Lemma comprehension_rows {A B : Type} (f : A -> FormExc + B) (xs : list A) :
  forall ys, comprehension f xs = inr ys -> Forall2 (fun x y => f x = inr y) xs ys.
Proof.
  induction xs as [|x xs IH]; simpl; intros ys.
  - intros [= <-]. constructor.
  - destruct (f x) as [e|y] eqn:Hx; [done|].
    destruct (comprehension f xs) as [e|ys'] eqn:Hrest; [done|].
    intros [= <-]. constructor; [done | by apply IH].
Qed.

Lemma comprehension_all {A B : Type} (f : A -> FormExc + B) (xs : list A) (ys : list B) :
  Forall2 (fun x y => f x = inr y) xs ys -> comprehension f xs = inr ys.
Proof.
  induction 1 as [|x y xs ys Hx _ IH]; simpl; [done|]. by rewrite Hx, IH.
Qed.

(** X24. When [convert_query_to_tuples] returns, it returns one tuple per
    row of the query, in the order of the rows, the tuple of a row holding
    what the two columns (read by name with [getattr], or computed by the
    given function) give for that row. *)
Theorem convert_query_to_tuples_rows (query : list (Item Val))
    (first_column second_column : ColumnSpec Val) (ts : list (Val * Val)) :
  convert_query_to_tuples query first_column second_column = inr ts ->
  length ts = length query /\
  forall i item, query !! i = Some item ->
    exists a b,
      column_getter first_column item = inr a /\
      column_getter second_column item = inr b /\
      ts !! i = Some (a, b).
Proof.
  unfold convert_query_to_tuples.
  revert ts. induction query as [|item0 query IH]; simpl; intros ts.
  - intros [= <-]. split; [done|]. intros i item Hi. by destruct i.
  - destruct (column_getter first_column item0) as [e|a] eqn:Ha; [done|].
    destruct (column_getter second_column item0) as [e|b] eqn:Hb; [done|].
    destruct (tuples_of _ _ query) as [e|ts'] eqn:Hrest; [done|].
    intros [= <-]. destruct (IH ts' eq_refl) as [Hlen Hrows].
    split; [simpl; by rewrite Hlen|].
    intros [|i] item Hi; simpl in *.
    + injection Hi as <-. by exists a, b.
    + by apply Hrows.
Qed.

(** X25. [deserialize] sends nothing to the database for [colander.null],
    for a string, for a value that cannot be iterated and for an empty
    sequence, whatever the set type and the node are; no query result comes
    back in these cases, and with a session and a match column in place the
    empty sequence gives the plain empty list. *)
Theorem deserialize_without_values_asks_nothing (self : SetType) (node : Node Session)
    (cstruct : Cstruct Val) :
  (forall v vs, cstruct <> CSequence (v :: vs)) ->
  let r := deserialize slug_to_uuid query_all self node cstruct in
  snd r = [] /\
  (forall rows, fst r <> inr (DResult rows)) /\
  (cstruct = CNull -> fst r = inr DNull) /\
  (forall session column,
     cstruct = CSequence [] ->
     request_dbsession node = Some session ->
     get_match_column self (model self) = inr column ->
     fst r = inr DEmpty).
Proof.
  intros Hempty. destruct cstruct as [|s|v|[|v vs]]; simpl.
  - split_and!; done.
  - split_and!; done.
  - split_and!; done.
  - unfold deserialize_set_to_models, get_dbsession, preprocess_cstruct_values.
    destruct (request_dbsession node) as [session|]; [|split_and!; done].
    destruct (get_match_column self (model self)) as [e|column] eqn:Hcol;
      [split_and!; done|].
    assert (exists m, model self = Some m) as [m Hm].
    { unfold get_match_column in Hcol. destruct (match_column self); [|done].
      destruct (String.eqb _ _); [done|]. destruct (model self); [by eexists | done]. }
    rewrite Hm. destruct (class self); simpl; split_and!; done.
  - by destruct (Hempty v vs).
Qed.

(** X26. [serialize] checks the configuration before it looks at the
    value: a set type whose [match_column] or [label_column] is unset (the
    defaults of [ModelSet]) or empty fails with an [AssertionError] for
    every appstruct, [colander.null] included; [deserialize] of
    [colander.null] on the same set type returns [colander.null] without
    any check. *)
Theorem serialize_requires_configuration (self : SetType) (node : Node Session)
    (appstruct : Appstruct Val) :
  configured (match_column self) = false \/ configured (label_column self) = false ->
  (exists msg, serialize uuid_to_slug self appstruct = inl (AssertionError msg)) /\
  deserialize slug_to_uuid query_all self node CNull = (inr DNull, []).
Proof.
  intros Hun. split; [|done]. unfold serialize. destruct Hun as [H|H].
  - rewrite H. simpl. by eexists.
  - destruct (configured (match_column self)); simpl; [|by eexists].
    rewrite H. simpl. by eexists.
Qed.

(** X27. For a [UUIDModelSet], what [serialize] writes out reads back: when
    the slug of every item's match column decodes to the value it encodes,
    [deserialize] applied to the serialized values of a non-empty
    collection sends exactly one query, for the match column values of the
    items in their order, and returns its rows. *)
Theorem uuid_set_round_trip (self : SetType) (node : Node Session) (session : Session)
    (m : ModelClass) (column : string) (item0 : Item Val) (items : list (Item Val))
    (uuids : list Val) :
  class self = UUIDModelSet ->
  match_column self = Some column ->
  column <> "" ->
  configured (label_column self) = true ->
  model self = Some m ->
  column ∈ column_names m ->
  request_dbsession node = Some session ->
  Forall2 (fun item uuid =>
             item column = Some uuid /\
             exists slug, uuid_to_slug uuid = inr slug /\ slug_to_uuid slug = inr uuid)
          (item0 :: items) uuids ->
  exists slugs,
    serialize uuid_to_slug self (AItems (item0 :: items)) = inr (SValues slugs) /\
    deserialize slug_to_uuid query_all self node (CSequence slugs)
      = (inr (DResult (query_all session m column uuids)),
         [Queried session (tablename m) column uuids]).
Proof.
  intros Hclass Hmatch Hne Hlabel Hmodel Hcol Hnode Hall.
  assert (exists slugs,
            Forall2 (fun item slug =>
                       match attribute_of item (Some column) with
                       | inl e => inl e
                       | inr uuid => uuid_to_slug uuid
                       end = inr slug) (item0 :: items) slugs /\
            Forall2 (fun slug uuid => slug_to_uuid slug = inr uuid) slugs uuids)
    as (slugs & Hout & Hback).
  { clear -Hall. induction Hall as [|item uuid its us [Hattr (slug & Hs & Hu)] _ IH].
    - exists []. split; constructor.
    - destruct IH as (slugs & H1 & H2). exists (slug :: slugs). split.
      + constructor; [|done]. unfold attribute_of, getattr. by rewrite Hattr.
      + by constructor. }
  exists slugs.
  assert (configured (match_column self) = true) as Hconf.
  { rewrite Hmatch. simpl. by destruct (String.eqb_spec column ""). }
  split.
  - unfold serialize, preprocess_appstruct_values.
    rewrite Hconf, Hlabel, Hclass, Hmatch. simpl negb. cbv iota.
    by rewrite (comprehension_all _ _ _ Hout).
  - simpl. unfold deserialize_set_to_models, get_dbsession, get_match_column,
      preprocess_cstruct_values.
    rewrite Hnode, Hmatch, Hmodel, Hclass.
    destruct (String.eqb_spec column "") as [|_]; [done|].
    rewrite bool_decide_eq_true_2 by done.
    rewrite (comprehension_all _ _ _ Hback).
    apply Forall2_length in Hall. destruct uuids as [|u us]; [done|]. done.
Qed.

(** X28. A plain [ModelSet] writes out the label column and reads back by
    the match column: [serialize] gives the labels of the items, and
    [deserialize] applied to them asks the database for the rows whose
    match column is among those labels. *)
Theorem model_set_reads_labels_as_keys (self : SetType) (node : Node Session)
    (session : Session) (m : ModelClass) (column label : string) (item0 : Item Val)
    (items : list (Item Val)) (labels : list Val) :
  class self = ModelSet ->
  match_column self = Some column ->
  column <> "" ->
  label_column self = Some label ->
  label <> "" ->
  model self = Some m ->
  column ∈ column_names m ->
  request_dbsession node = Some session ->
  Forall2 (fun item v => item label = Some v) (item0 :: items) labels ->
  serialize uuid_to_slug self (AItems (item0 :: items)) = inr (SValues labels) /\
  deserialize slug_to_uuid query_all self node (CSequence labels)
    = (inr (DResult (query_all session m column labels)),
       [Queried session (tablename m) column labels]).
Proof.
  intros Hclass Hmatch Hne Hlab Hlne Hmodel Hcol Hnode Hall.
  assert (configured (match_column self) = true) as Hconf.
  { rewrite Hmatch. simpl. by destruct (String.eqb_spec column ""). }
  assert (configured (label_column self) = true) as Hconf'.
  { rewrite Hlab. simpl. by destruct (String.eqb_spec label ""). }
  split.
  - unfold serialize, preprocess_appstruct_values.
    rewrite Hconf, Hconf', Hclass, Hlab. simpl negb. cbv iota.
    rewrite (comprehension_all _ _ labels); [done|].
    eapply Forall2_impl; [exact Hall|]. intros item v Hv. simpl.
    unfold getattr. by rewrite Hv.
  - simpl. unfold deserialize_set_to_models, get_dbsession, get_match_column,
      preprocess_cstruct_values.
    rewrite Hnode, Hmatch, Hmodel, Hclass.
    destruct (String.eqb_spec column "") as [|_]; [done|].
    rewrite bool_decide_eq_true_2 by done.
    apply Forall2_length in Hall. destruct labels as [|l ls]; [done|]. done.
Qed.

End Facts.

(** ** The scenarios *)

Lemma convert_query_to_tuples_rows_witness :
  let query := [user_row "u1" "Ann"; user_row "u2" "Bob"] in
  let ts := [("u1", "Ann"); ("u2", "Bob")] in
  length ts = length query /\
  forall i item, query !! i = Some item ->
    exists a b,
      column_getter (ByName "uuid") item = inr a /\
      column_getter (ByFunction (fun item => getattr item "name")) item = inr b /\
      ts !! i = Some (a, b).
Proof.
  apply (convert_query_to_tuples_rows [user_row "u1" "Ann"; user_row "u2" "Bob"]
           (ByName "uuid") (ByFunction (fun item => getattr item "name"))
           [("u1", "Ann"); ("u2", "Bob")]).
  reflexivity.
Defined.

Lemma deserialize_without_values_asks_nothing_witness :
  let r := deserialize demo_unslug demo_query user_set demo_node (CSequence []) in
  snd r = [] /\
  (forall rows, fst r <> inr (DResult rows)) /\
  (@CSequence string [] = CNull -> fst r = inr DNull) /\
  (forall session column,
     @CSequence string [] = CSequence [] ->
     request_dbsession demo_node = Some session ->
     get_match_column user_set (model user_set) = inr column ->
     fst r = inr DEmpty).
Proof.
  apply (deserialize_without_values_asks_nothing demo_unslug demo_query user_set demo_node
           (CSequence [])).
  intros v vs H. discriminate H.
Defined.

Lemma serialize_requires_configuration_witness :
  (exists msg, serialize demo_slug bare_set (@ANull string) = inl (AssertionError msg)) /\
  deserialize demo_unslug demo_query bare_set demo_node CNull = (inr DNull, []).
Proof.
  apply (serialize_requires_configuration demo_unslug demo_slug demo_query bare_set
           demo_node ANull).
  left. reflexivity.
Defined.

Lemma uuid_set_round_trip_witness :
  exists slugs,
    serialize demo_slug user_set (AItems [user_row "u1" "Ann"; user_row "u2" "Bob"])
      = inr (SValues slugs) /\
    deserialize demo_unslug demo_query user_set demo_node (CSequence slugs)
      = (inr (DResult (demo_query tt users "uuid" ["u1"; "u2"])),
         [Queried tt (tablename users) "uuid" ["u1"; "u2"]]).
Proof.
  apply (uuid_set_round_trip demo_unslug demo_slug demo_query user_set demo_node tt users
           "uuid" (user_row "u1" "Ann") [user_row "u2" "Bob"] ["u1"; "u2"]);
    try reflexivity.
  - discriminate.
  - apply list_elem_of_here.
  - repeat constructor; eexists; split; reflexivity.
Defined.

Lemma model_set_reads_labels_as_keys_witness :
  serialize demo_slug named_set (AItems [user_row "u1" "Ann"; user_row "u2" "Bob"])
    = inr (SValues ["Ann"; "Bob"]) /\
  deserialize demo_unslug demo_query named_set demo_node (CSequence ["Ann"; "Bob"])
    = (inr (DResult (demo_query tt users "uuid" ["Ann"; "Bob"])),
       [Queried tt (tablename users) "uuid" ["Ann"; "Bob"]]).
Proof.
  apply (model_set_reads_labels_as_keys demo_unslug demo_slug demo_query named_set demo_node
           tt users "uuid" "name" (user_row "u1" "Ann") [user_row "u2" "Bob"] ["Ann"; "Bob"]);
    try reflexivity.
  - discriminate.
  - discriminate.
  - apply list_elem_of_here.
  - repeat constructor.
Defined.

End FormFacts.
